(** * MeetKitAI: the utility layer of the project brigade

    A shallow embedding of the pieces of [AIProjectBrigade_Enhanced.py],
    [profiles.py] and [validation.py] that carry logic of their own: the
    response cache, the JSON fallback parser, the retry decorator, the
    parallel code-generation fan-out, the profile selector and the
    validation report.

    Conventions.
    - A Python [str] is a list of Unicode code points ([N]).
    - A [dict] whose iteration order is observable (the cache, because
      [min] breaks ties by order; the keyword table) is an association list
      in insertion order; a dict that is only looked up is a [gmap].
    - [datetime] values are integers counting microseconds, the resolution
      of [datetime]; [timedelta(seconds=n)] is [n * 1000000].  The range
      limits of [datetime] and [timedelta] are not modelled.
    - Numbers that the code holds as floats ([base_delay], the score) are
      exact rationals here.
    - Exceptions are values of [exn], all of them instances of
      [Exception]; a computation that may raise returns a [res].
    - Library calls whose result the code does not control ([hashlib.md5],
      [json.loads], [str.lower], the completion order of a thread pool) are
      Section variables. *)

From Stdlib Require Import ZArith NArith QArith List String Ascii Lia Bool Permutation.
From Stdlib Require Import DecimalString.
From stdpp Require Import base option list gmap.

Set Default Proof Using "Type".
#[local] Set Warnings "-register-all".

(* ===================================================================== *)
(** * Part I: definitions *)
(* ===================================================================== *)

(** ** Exceptions and results *)

Inductive exn : Type :=
| UnicodeEncodeError
| ValueError
| OSError
| OtherException (tag : N).

Inductive res (A : Type) : Type :=
| Ok (a : A)
| Raise (e : exn).
Arguments Ok {A} a.
Arguments Raise {A} e.

Definition res_bind {A B : Type} (m : res A) (k : A -> res B) : res B :=
  match m with
  | Ok a => k a
  | Raise e => Raise e
  end.

(** ** Python strings *)

Abbreviation str := (list N).

(** A literal of the source, given as a Rocq string of ASCII characters. *)
Definition lit (s : string) : str :=
  List.map N_of_ascii (list_ascii_of_string s).

(** [str.isspace] on one code point: the code points CPython's
    [_PyUnicode_IsWhitespace] accepts. *)
Definition isspace (c : N) : bool :=
  ((9 <=? c) && (c <=? 13) || (28 <=? c) && (c <=? 32) ||
   (c =? 133) || (c =? 160) || (c =? 5760) ||
   (8192 <=? c) && (c <=? 8202) || (c =? 8232) || (c =? 8233) ||
   (c =? 8239) || (c =? 8287) || (c =? 12288))%N.

Fixpoint lstrip (s : str) : str :=
  match s with
  | [] => []
  | c :: s' => if isspace c then lstrip s' else s
  end.

Definition rstrip (s : str) : str := rev (lstrip (rev s)).

(** [s.strip()] *)
Definition strip (s : str) : str := rstrip (lstrip s).

(** [s.startswith(p)] *)
Fixpoint startswith (s p : str) : bool :=
  match p, s with
  | [], _ => true
  | _ :: _, [] => false
  | a :: p', b :: s' => (a =? b)%N && startswith s' p'
  end.

(** [s.endswith(p)] *)
Definition endswith (s p : str) : bool := startswith (rev s) (rev p).

(** [s[n:]] and [s[:-n]] *)
Definition slice_from (n : nat) (s : str) : str := drop n s.
Definition slice_to_minus (n : nat) (s : str) : str :=
  take (length s - n) s.

(** [p in s] for strings: [p] occurs as a contiguous block of [s]. *)
Fixpoint contains (s p : str) : bool :=
  startswith s p ||
  match s with
  | [] => false
  | _ :: s' => contains s' p
  end.

(** [s.encode()]: UTF-8; a lone surrogate raises [UnicodeEncodeError]. *)
Definition utf8_char (c : N) : option (list N) :=
  (if c <? 128 then Some [c]
   else if c <? 2048 then Some [192 + c / 64; 128 + c mod 64]
   else if (55296 <=? c) && (c <=? 57343) then None
   else if c <? 65536 then
     Some [224 + c / 4096; 128 + (c / 64) mod 64; 128 + c mod 64]
   else
     Some [240 + c / 262144; 128 + (c / 4096) mod 64;
           128 + (c / 64) mod 64; 128 + c mod 64])%N.

Fixpoint encode (s : str) : res (list N) :=
  match s with
  | [] => Ok []
  | c :: s' =>
      match utf8_char c with
      | None => Raise UnicodeEncodeError
      | Some bs => res_bind (encode s') (fun r => Ok (bs ++ r))
      end
  end.

(** ** Insertion-ordered dictionaries *)

Section Dict.
Context {V : Type}.

(** [d[k]] / [d.get(k)] *)
Fixpoint dict_get (k : str) (d : list (str * V)) : option V :=
  match d with
  | [] => None
  | (k', v) :: d' => if decide (k' = k) then Some v else dict_get k d'
  end.

(** [del d[k]] for a key that is present. *)
Fixpoint dict_del (k : str) (d : list (str * V)) : list (str * V) :=
  match d with
  | [] => []
  | (k', v) :: d' =>
      if decide (k' = k) then dict_del k d' else (k', v) :: dict_del k d'
  end.

(** [d[k] = v]: an existing key keeps its position, a new key goes last. *)
Fixpoint dict_set (k : str) (v : V) (d : list (str * V)) : list (str * V) :=
  match d with
  | [] => [(k, v)]
  | (k', v') :: d' =>
      if decide (k' = k) then (k, v) :: d' else (k', v') :: dict_set k v d'
  end.

Definition dict_keys (d : list (str * V)) : list str := d.*1.

(** The dictionaries Python can build: no key occurs twice. *)
Definition dict_wf (d : list (str * V)) : Prop := NoDup (dict_keys d).
End Dict.

(** [min(xs, key=f)] on a non-empty iterable [x :: xs]: the first element
    whose key is minimal (the running best is replaced only by a strictly
    smaller key). *)
Fixpoint py_min_from {A : Type} (f : A -> Z) (best : A) (xs : list A) : A :=
  match xs with
  | [] => best
  | y :: ys => py_min_from f (if (f y <? f best)%Z then y else best) ys
  end.

(** [min] of an empty iterable raises [ValueError]. *)
Definition py_min {A : Type} (f : A -> Z) (xs : list A) : res A :=
  match xs with
  | [] => Raise ValueError
  | x :: xs' => Ok (py_min_from f x xs')
  end.

(** [max(xs, key=f)]: the first element whose key is maximal. *)
Fixpoint py_max_from {A : Type} (f : A -> Z) (best : A) (xs : list A) : A :=
  match xs with
  | [] => best
  | y :: ys => py_max_from f (if (f best <? f y)%Z then y else best) ys
  end.

(** [max] of an empty iterable raises [ValueError]. *)
Definition py_max {A : Type} (f : A -> Z) (xs : list A) : res A :=
  match xs with
  | [] => Raise ValueError
  | x :: xs' => Ok (py_max_from f x xs')
  end.

(** ** JSON values, as [json.loads] builds them *)

Inductive json : Type :=
| JNone
| JBool (b : bool)
| JInt (z : Z)
| JFloat (literal : str)
| JStr (s : str)
| JList (l : list json)
| JDict (d : list (str * json)).

(** ** [EnhancedBaseAgent._parse_json] *)

(** How a call of [json.loads] ends: with the decoded value, with
    [json.JSONDecodeError], or with an exception that is not a
    [JSONDecodeError] ([ValueError] when an integer literal has more
    digits than [int] converts, 4300 by default, or [RecursionError] when
    the text is nested too deeply). *)
Inductive loads_result : Type :=
| Decoded (value : json)
| JSONDecodeError
| LoadsRaised (e : exn).

Section ParseJson.
Variable json_loads : str -> loads_result.

(** The text after the clean-up steps of the [try] block, which is what
    the variable [response] holds when [json.loads] is called. *)
Definition clean_response (response : str) : str :=
  let response := strip response in
  let response :=
    if startswith response (lit "```json") then slice_from 7 response
    else if startswith response (lit "```") then slice_from 3 response
    else response in
  if endswith response (lit "```") then slice_to_minus 3 response
  else response.

(** [except json.JSONDecodeError] catches that exception only; any other
    one leaves the method. *)
Definition _parse_json (response : str) : res json :=
  let response := clean_response response in
  match json_loads (strip response) with
  | Decoded value => Ok value
  | JSONDecodeError => Ok (JDict [(lit "raw_response", JStr response)])
  | LoadsRaised e => Raise e
  end.
End ParseJson.

(** A text of decimal digits that is a JSON number: no leading zero
    unless it is the single digit. *)
Definition is_digit (c : N) : bool := ((48 <=? c) && (c <=? 57))%N.
Definition integer_literal (s : str) : bool :=
  match s with
  | [] => false
  | [c] => is_digit c
  | c :: _ => negb (c =? 48)%N && forallb is_digit s
  end.
Definition digits_value (s : str) : Z :=
  fold_left (fun acc c => (10 * acc + (Z.of_N c - 48))%Z) s 0%Z.

(** A decoder for the JSON literal names and the unsigned integer
    literals; every other text is rejected.  It agrees with [json.loads]
    on the texts it is run on below ([null], [true], [false], texts of
    digits and texts that are not JSON at all): an integer literal of more
    than 4300 digits, CPython's default limit, makes the conversion to
    [int] raise [ValueError]. *)
Definition json_loads_literals (s : str) : loads_result :=
  if decide (s = lit "null") then Decoded JNone
  else if decide (s = lit "true") then Decoded (JBool true)
  else if decide (s = lit "false") then Decoded (JBool false)
  else if integer_literal s then
    if (4300 <? length s)%nat then LoadsRaised ValueError
    else Decoded (JInt (digits_value s))
  else JSONDecodeError.

(** ** [ResponseCache] *)

Module ResponseCache.
Record t : Type := mk {
  max_size : Z;
  ttl : Z;                             (* seconds *)
  cache : list (str * (str * Z))       (* key -> (response, timestamp) *)
}.

Definition with_cache (c : t) (d : list (str * (str * Z))) : t :=
  {| max_size := max_size c; ttl := ttl c; cache := d |}.

(** [ResponseCache(max_size, ttl)] *)
Definition init (max_size ttl : Z) : t :=
  {| max_size := max_size; ttl := ttl; cache := [] |}.

Definition timestamp_of (entry : str * (str * Z)) : Z := entry.2.2.

(** [timedelta(seconds=n)] in microseconds. *)
Definition timedelta_seconds (n : Z) : Z := (n * 1000000)%Z.

(** The cache invariant: keys are unique, as in every [dict], and there
    are at most [max_size] entries. *)
Definition bounded (c : t) : Prop :=
  dict_wf (cache c) /\ (Z.of_nat (length (cache c)) <= max_size c)%Z.

Section WithDigest.
(** [hashlib.md5(bytes).hexdigest()] *)
Variable md5_hexdigest : list N -> str.

Definition _hash_key (prompt model : str) : res str :=
  let content := model ++ lit ":" ++ prompt in
  res_bind (encode content) (fun bytes => Ok (md5_hexdigest bytes)).

(** [get], run at clock reading [now]: the value returned (or the
    exception raised) and the cache afterwards. *)
Definition get (c : t) (prompt model : str) (now : Z)
  : res (option str) * t :=
  match _hash_key prompt model with
  | Raise e => (Raise e, c)
  | Ok key =>
      match dict_get key (cache c) with
      | Some (response, timestamp) =>
          if (now - timestamp <? timedelta_seconds (ttl c))%Z
          then (Ok (Some response), c)
          else (Ok None, with_cache c (dict_del key (cache c)))
      | None => (Ok None, c)
      end
  end.

(** [self.cache[k][1]] for a key [k] that the iteration over the dict
    hands out, so that the lookup cannot fail. *)
Definition timestamp_at (d : list (str * (str * Z))) (k : str) : Z :=
  match dict_get k d with
  | Some (_, timestamp) => timestamp
  | None => 0%Z
  end.

(** [min(self.cache, key=lambda k: self.cache[k][1])] *)
Definition oldest_key (d : list (str * (str * Z))) : res str :=
  py_min (timestamp_at d) (dict_keys d).

Definition set (c : t) (prompt model response : str) (now : Z)
  : res unit * t :=
  match _hash_key prompt model with
  | Raise e => (Raise e, c)
  | Ok key =>
      if (Z.of_nat (length (cache c)) >=? max_size c)%Z then
        match oldest_key (cache c) with
        | Raise e => (Raise e, c)
        | Ok oldest =>
            (Ok (), with_cache c
                      (dict_set key (response, now)
                         (dict_del oldest (cache c))))
        end
      else
        (Ok (), with_cache c (dict_set key (response, now) (cache c)))
  end.

Definition clear (c : t) : t := with_cache c [].

(** The calls a client can make, and the cache after a sequence of
    them (a call that raises leaves the cache as it found it). *)
Inductive operation : Type :=
| OpGet (prompt model : str) (now : Z)
| OpSet (prompt model response : str) (now : Z)
| OpClear.

Definition apply_operation (c : t) (o : operation) : t :=
  match o with
  | OpGet prompt model now => (get c prompt model now).2
  | OpSet prompt model response now => (set c prompt model response now).2
  | OpClear => clear c
  end.

Definition run (c : t) (ops : list operation) : t :=
  fold_left apply_operation ops c.
End WithDigest.
End ResponseCache.

(** A stand-in digest for running the cache on concrete inputs: the hex
    digest is taken to be the encoded content itself. *)
Definition identity_digest (bytes : list N) : str := bytes.

(** ** [retry_with_backoff] *)

Module Retry.
Section Decorator.
(** What the wrapped function can return, the [Exception] instances it
    can raise, and the exceptions outside [Exception]
    ([KeyboardInterrupt], [SystemExit], ...) that [except Exception]
    lets through. *)
Variables V E B : Type.

Inductive outcome : Type :=
| Returns (v : V)
| RaisesException (e : E)
| RaisesOther (b : B).

(** What the wrapper does that is observable from outside, in order. *)
Inductive event : Type :=
| Invoke (attempt : nat)    (* the call of func made in this attempt *)
| Sleep (delay : Q).        (* time.sleep(delay) that went through *)

Inductive wrapper_result : Type :=
| Returned (v : V)
| Reraised (e : E)          (* raise last_exception, an exception *)
| RaisedNone                (* raise last_exception, still None *)
| Escaped (b : B)           (* not caught by [except Exception] *)
| DelayOverflow             (* the product for the delay: OverflowError *)
| SleepRefused (delay : Q). (* time.sleep(delay): ValueError for a negative
                               delay, OverflowError for one too large *)

Variable max_retries : Z.
(** [base_delay] as an exact number; scaling by a power of two is what
    the float product computes as long as it does not overflow, and a
    product beyond the floats is infinite, which [time.sleep] refuses like
    any delay above [sleep_max]. *)
Variable base_delay : Q.
(** Whether [base_delay] is a [float], as annotated, and not an [int]:
    in a product with a float the power [2 ** attempt] is converted to a
    float, which raises [OverflowError] from [2 ** 1024] on. *)
Variable float_delay : bool.
(** The largest delay [time.sleep] accepts.  A longer one, whose number
    of nanoseconds no longer fits the signed 64-bit value of the clock
    (about 9.2e9 seconds), raises [OverflowError]. *)
Variable sleep_max : Q.
(** The outcome of the invocation made in each attempt. *)
Variable func : nat -> outcome.

(** [base_delay * (2 ** attempt)] *)
Definition delay_of (attempt : nat) : Q :=
  (base_delay * inject_Z (2 ^ Z.of_nat attempt))%Q.
Definition delay_overflows (attempt : nat) : bool :=
  float_delay && (1024 <=? attempt)%nat.

(** The delays with which [time.sleep] returns. *)
Definition sleep_accepts (delay : Q) : bool :=
  Qle_bool 0 delay && Qle_bool delay sleep_max.

(** The iterations of [for attempt in range(max_retries)] that are
    still to run, [n] of them starting at [attempt], followed by the
    final [raise last_exception]. *)
Fixpoint attempts (n : nat) (attempt : nat) (last_exception : option E)
  : wrapper_result * list event :=
  match n with
  | O =>
      (match last_exception with
       | Some e => Reraised e
       | None => RaisedNone
       end, [])
  | S n' =>
      match func attempt with
      | Returns v => (Returned v, [Invoke attempt])
      | RaisesOther b => (Escaped b, [Invoke attempt])
      | RaisesException e =>
          if (Z.of_nat attempt <? max_retries - 1)%Z then
            if delay_overflows attempt then (DelayOverflow, [Invoke attempt])
            else
              let delay := delay_of attempt in
              if sleep_accepts delay then
                let r := attempts n' (S attempt) (Some e) in
                (r.1, Invoke attempt :: Sleep delay :: r.2)
              else (SleepRefused delay, [Invoke attempt])
          else
            let r := attempts n' (S attempt) (Some e) in
            (r.1, Invoke attempt :: r.2)
      end
  end.

Definition wrapper : wrapper_result * list event :=
  attempts (Z.to_nat max_retries) 0 None.

Definition invocations (trace : list event) : list nat :=
  omap (fun ev => match ev with Invoke k => Some k | Sleep _ => None end)
       trace.
End Decorator.

Arguments Returns {V E B} v.
Arguments RaisesException {V E B} e.
Arguments RaisesOther {V E B} b.
Arguments Returned {V E B} v.
Arguments Reraised {V E B} e.
Arguments RaisedNone {V E B}.
Arguments Escaped {V E B} b.
Arguments DelayOverflow {V E B}.
Arguments SleepRefused {V E B} delay.
Arguments attempts {V E B} max_retries base_delay float_delay sleep_max func
  n attempt last_exception.
Arguments wrapper {V E B} max_retries base_delay float_delay sleep_max func.
End Retry.

(** The bound of [time.sleep] in CPython on a 64-bit platform: [2^63 - 1]
    nanoseconds. *)
Definition cpython_sleep_max : Q := 9223372036854775807 # 1000000000.

(** ** [EnhancedOrchestrator._save_code_files] and
       [EnhancedOrchestrator._parallel_code_generation] *)

(** [s.split("\n")] *)
Fixpoint split_lines_from (s : str) (line : str) : list str :=
  match s with
  | [] => [rev line]
  | c :: s' =>
      if (c =? 10)%N then rev line :: split_lines_from s' []
      else split_lines_from s' (c :: line)
  end.
Definition split_lines (s : str) : list str := split_lines_from s [].

(** ["\n".join(lines)] *)
Fixpoint join_lines (lines : list str) : str :=
  match lines with
  | [] => []
  | [l] => l
  | l :: ls => l ++ 10%N :: join_lines ls
  end.

(** The "Clean content" step of [_save_code_files]. *)
Definition clean_content (content : str) : str :=
  let content := strip content in
  if startswith content (lit "```") then
    let lines := drop 1 (split_lines content) in
    let lines :=
      match last lines with
      | Some l =>
          if decide (strip l = lit "```") then take (length lines - 1) lines
          else lines
      | None => lines
      end in
    join_lines lines
  else content.

(** [posixpath.join]: one way to instantiate [os.path.join] below. *)
Definition posix_join2 (path b : str) : str :=
  if startswith b (lit "/") then b
  else if bool_decide (path = []) || endswith path (lit "/") then path ++ b
  else path ++ lit "/" ++ b.
Definition posix_join (parts : list str) : str :=
  match parts with
  | [] => []
  | a :: p => fold_left posix_join2 p a
  end.

Module Orchestrator.
(** The file system as the code affects it: the writes completed so far,
    the full path and the text written, oldest first.  (What a write that
    raises leaves behind is not recorded.) *)
Abbreviation fs := (list (str * str)).

Definition FrontendAI : str := lit "FrontendAI".
Definition BackendAI : str := lit "BackendAI".
Definition DataAI : str := lit "DataAI".

(** The literal dict of the parallel branch, read with [.get] and the
    empty string as default. *)
Definition subdirectory_table : list (str * str) :=
  [ (FrontendAI, lit "10_Code/Frontend");
    (BackendAI, lit "10_Code/Backend");
    (DataAI, lit "10_Code/Backend/data") ].
Definition subdirectory_of (agent_name : str) : str :=
  default [] (dict_get agent_name subdirectory_table).

(** The list the sequential branch iterates over. *)
Definition sequential_plan : list (str * str) :=
  [ (BackendAI, lit "10_Code/Backend");
    (FrontendAI, lit "10_Code/Frontend");
    (DataAI, lit "10_Code/Backend/data") ].

(** [isinstance(content, str) and len(content) > 10] *)
Definition writable (content : json) : option str :=
  match content with
  | JStr text => if (10 <? length text)%nat then Some text else None
  | _ => None
  end.

Section CodeGeneration.
(** [os.path.join] on its list of components. *)
Variable os_path_join : list str -> str.
(** The exception, if any, that [os.makedirs], [open] or [f.write] raises
    for a full path and a text, given the writes already completed
    ([OSError], or [UnicodeEncodeError] for a text that has no UTF-8
    encoding). *)
Variable io_error : fs -> str -> str -> option exn.
(** [self.agents[agent_name].generate_code(requirements, architecture)]
    for the project context at hand: the decoded reply, or the
    exception the call ends with. *)
Variable generate_code : str -> res json.
(** [context.project_dir] *)
Variable project_dir : str.

Definition full_path_of (subdirectory filepath : str) : str :=
  if decide (subdirectory = []) then os_path_join [project_dir; filepath]
  else os_path_join [project_dir; subdirectory; filepath].

(** One [open(full_path, 'w', encoding='utf-8')] and [f.write]. *)
Definition write_file (full_path content : str) (disk : fs) : res fs :=
  match io_error disk full_path content with
  | Some e => Raise e
  | None => Ok (disk ++ [(full_path, content)])
  end.

(** The [for filepath, content in code_dict.items()] loop. *)
Fixpoint save_items (subdirectory : str) (items : list (str * json))
    (created : list str) (disk : fs) : res (list str) * fs :=
  match items with
  | [] => (Ok created, disk)
  | (filepath, content) :: items' =>
      match writable content with
      | Some text =>
          match write_file (full_path_of subdirectory filepath)
                  (clean_content text) disk with
          | Ok disk' =>
              save_items subdirectory items' (created ++ [filepath]) disk'
          | Raise e => (Raise e, disk)
          end
      | None => save_items subdirectory items' created disk
      end
  end.

Definition _save_code_files (code_dict : json) (subdirectory : str)
    (disk : fs) : res (list str) * fs :=
  match code_dict with
  | JDict items => save_items subdirectory items [] disk
  | _ => (Ok [], disk)
  end.

(** The body both branches run for one agent: take the agent's code,
    save it, and record the files, or [[]] on any exception. *)
Definition collect_one (agent_name subdirectory : str)
    (results : gmap str (list str)) (disk : fs)
  : gmap str (list str) * fs :=
  match generate_code agent_name with
  | Raise _ => (<[agent_name := []]> results, disk)
  | Ok code_dict =>
      match _save_code_files code_dict subdirectory disk with
      | (Ok files, disk') => (<[agent_name := files]> results, disk')
      | (Raise _, disk') => (<[agent_name := []]> results, disk')
      end
  end.

Fixpoint collect (plan : list (str * str))
    (results : gmap str (list str)) (disk : fs)
  : gmap str (list str) * fs :=
  match plan with
  | [] => (results, disk)
  | (agent_name, subdirectory) :: plan' =>
      let '(results', disk') :=
        collect_one agent_name subdirectory results disk in
      collect plan' results' disk'
  end.

(** What a run of [_save_code_files] in which nothing raises returns
    and writes: the paths of the entries that qualify, in order. *)
Fixpoint created_items (items : list (str * json)) : list str :=
  match items with
  | [] => []
  | (filepath, content) :: items' =>
      match writable content with
      | Some _ => filepath :: created_items items'
      | None => created_items items'
      end
  end.

Fixpoint writes_items (subdirectory : str) (items : list (str * json))
  : fs :=
  match items with
  | [] => []
  | (filepath, content) :: items' =>
      match writable content with
      | Some text =>
          (full_path_of subdirectory filepath, clean_content text)
            :: writes_items subdirectory items'
      | None => writes_items subdirectory items'
      end
  end.

Definition created_files (code_dict : json) : list str :=
  match code_dict with
  | JDict items => created_items items
  | _ => []
  end.

Definition writes_of (subdirectory : str) (code_dict : json) : fs :=
  match code_dict with
  | JDict items => writes_items subdirectory items
  | _ => []
  end.

(** What one agent contributes to the result, given the writes found
    on disk at the end: nothing if its generation raised; its files,
    all of them written at the path joined from the project directory,
    the subdirectory and the file's own path, if nothing raised; and
    nothing if one of its writes raised. *)
Definition contribution (agent_name subdirectory : str)
    (files : list str) (disk : fs) : Prop :=
  match generate_code agent_name with
  | Raise _ => files = []
  | Ok code_dict =>
      (files = created_files code_dict /\
       forall w, In w (writes_of subdirectory code_dict) -> In w disk) \/
      (files = [] /\
       exists e before w,
         In w (writes_of subdirectory code_dict) /\
         write_file w.1 w.2 before = Raise e)
  end.

(** A write that belongs to one of the agents [names]. *)
Definition write_of_agents (names : list str) (w : str * str) : Prop :=
  exists agent_name code_dict,
    In agent_name names /\
    generate_code agent_name = Ok code_dict /\
    In w (writes_of (subdirectory_of agent_name) code_dict).

(** [parallel] is the configuration flag; [completed] is the order in
    which [as_completed] hands back the three futures. *)
Definition _parallel_code_generation (parallel : bool)
    (completed : list str) (disk : fs) : gmap str (list str) * fs :=
  if parallel then
    collect (List.map (fun a => (a, subdirectory_of a)) completed) ∅ disk
  else
    collect sequential_plan ∅ disk.
End CodeGeneration.
End Orchestrator.

(** ** Where a joined path lies *)

(** [path.split("/")] *)
Fixpoint components_from (s : str) (part : str) : list str :=
  match s with
  | [] => [rev part]
  | c :: s' =>
      if (c =? 47)%N then rev part :: components_from s' []
      else components_from s' (c :: part)
  end.
Definition components (path : str) : list str := components_from path [].

(** [path] lies under the directory [dir], as far as the text of the two
    paths tells: it is [dir], a slash and a path that has no [..]
    component to step up with. *)
Definition under (dir path : str) : bool :=
  startswith path (dir ++ lit "/") &&
  negb (bool_decide (lit ".." ∈ components (drop (length dir + 1) path))).

(** A run in which the frontend agent names its file by an absolute path
    and the two other agents raise; no write fails. *)
Definition absolute_generate_code (agent_name : str) : res json :=
  if decide (agent_name = lit "FrontendAI") then
    Ok (JDict [(lit "/tmp/App.tsx", JStr (lit "export default App;"))])
  else Raise (OtherException 0).

(** A run to evaluate the fan-out on: the frontend agent answers with one
    file, the backend agent raises, the data agent answers with a text
    that is not a dict; no write fails. *)
Definition sample_generate_code (agent_name : str) : res json :=
  if decide (agent_name = Orchestrator.FrontendAI) then
    Ok (JDict [(lit "src/App.tsx", JStr (lit "export default App;"))])
  else if decide (agent_name = Orchestrator.BackendAI) then
    Raise (OtherException 0)
  else Ok (JStr (lit "no code")).

Definition sample_io_error (disk : Orchestrator.fs) (full_path content : str)
  : option exn := None.

(** ** [ProfileManager.suggest_profile] *)

Module ProfileManager.
Definition keyword_map : list (str * list str) :=
  [ (lit "ml_project",
     List.map lit ["machine learning"; "ml"; "ai model"; "training";
                   "prediction"; "neural"; "deep learning"]%string);
    (lit "web_app",
     List.map lit ["website"; "web app"; "dashboard"; "portal"; "saas";
                   "frontend"; "react"; "vue"]%string);
    (lit "mobile_app",
     List.map lit ["mobile"; "ios"; "android"; "react native"; "flutter";
                   "app store"]%string);
    (lit "cli_tool",
     List.map lit ["cli"; "command line"; "terminal"; "script";
                   "automation tool"]%string);
    (lit "microservices",
     List.map lit ["microservice"; "distributed"; "kubernetes"; "k8s";
                   "multiple services"]%string);
    (lit "api_backend",
     List.map lit ["api"; "rest"; "backend only"; "server";
                   "endpoint"]%string);
    (lit "data_pipeline",
     List.map lit ["etl"; "pipeline"; "data processing"; "airflow";
                   "orchestration"]%string);
    (lit "iot_project",
     List.map lit ["iot"; "sensor"; "device"; "embedded"; "mqtt";
                   "hardware"]%string);
    (lit "chrome_extension",
     List.map lit ["chrome extension"; "firefox addon"; "browser plugin";
                   "manifest.json"]%string);
    (lit "desktop_app",
     List.map lit ["desktop"; "gui"; "windows app"; "mac app"; "tkinter";
                   "qt"; "pyqt"; "electron"]%string) ].

(** [{profile: 0 for profile in keyword_map}] *)
Definition initial_scores (table : list (str * list str)) : list (str * Z) :=
  List.map (fun entry => (entry.1, 0%Z)) table.

(** [scores[profile] += 1]; the profile always has a score already, so
    the [KeyError] of a missing key cannot occur and is left out. *)
Definition increment (profile : str) (scores : list (str * Z))
  : list (str * Z) :=
  match dict_get profile scores with
  | Some n => dict_set profile (n + 1)%Z scores
  | None => scores
  end.

(** [for keyword in keywords: if keyword in description: ...] *)
Fixpoint count_keywords (description profile : str) (keywords : list str)
    (scores : list (str * Z)) : list (str * Z) :=
  match keywords with
  | [] => scores
  | keyword :: keywords' =>
      count_keywords description profile keywords'
        (if contains description keyword then increment profile scores
         else scores)
  end.

(** [for profile, keywords in keyword_map.items(): ...] *)
Fixpoint count_profiles (description : str) (table : list (str * list str))
    (scores : list (str * Z)) : list (str * Z) :=
  match table with
  | [] => scores
  | (profile, keywords) :: table' =>
      count_profiles description table'
        (count_keywords description profile keywords scores)
  end.

(** [scores.get] as the ranking key, and [scores[k]] for a present key. *)
Definition score_of (scores : list (str * Z)) (profile : str) : Z :=
  default 0%Z (dict_get profile scores).

Section Suggest.
(** [str.lower] *)
Variable lower : str -> str.

Definition scores_for (description : str) : list (str * Z) :=
  count_profiles (lower description) keyword_map
    (initial_scores keyword_map).

Definition suggest_profile (description : str) : res str :=
  let scores := scores_for description in
  res_bind (py_max (score_of scores) (dict_keys scores))
    (fun best_match =>
       Ok (if (score_of scores best_match >? 0)%Z then best_match
           else lit "web_app")).
End Suggest.

(** The count the selector ranks by: the keywords of a profile found in
    the text. *)
Definition matching_keywords (text : str) (keywords : list str) : nat :=
  length (List.filter (contains text) keywords).

(** The same count, by profile name. *)
Definition hits_in (text : str) (table : list (str * list str)) (q : str)
  : Z :=
  match dict_get q table with
  | Some keywords => Z.of_nat (matching_keywords text keywords)
  | None => 0%Z
  end.
End ProfileManager.

(** [str.lower] on ASCII letters, other code points unchanged: the
    behaviour of [str.lower] on ASCII text. *)
Definition ascii_lower (s : str) : str :=
  List.map (fun c => if ((65 <=? c) && (c <=? 90))%N then (c + 32)%N else c) s.

(** ** [ValidationReport] *)

Module Validation.
Inductive CheckStatus : Type := PASSED | FAILED | WARNING | SKIPPED.

Inductive CheckCategory : Type :=
| STRUCTURE | CODE | DOCUMENTATION | CONFIGURATION | SECURITY | DEVOPS.

Record ValidationResult : Type := {
  name : str;
  status : CheckStatus;
  category : CheckCategory;
  message : str;
  details : option str;
  severity : str
}.

Record ValidationReport : Type := {
  project_dir : str;
  results : list ValidationResult;
  passed : Z;
  failed : Z;
  warnings : Z;
  skipped : Z
}.

(** [ValidationReport(project_dir=...)], the only way the code builds
    one. *)
Definition fresh (dir : str) : ValidationReport :=
  {| project_dir := dir; results := [];
     passed := 0; failed := 0; warnings := 0; skipped := 0 |}.

Definition add_result (self : ValidationReport) (result : ValidationResult)
  : ValidationReport :=
  let results' := results self ++ [result] in
  match status result with
  | PASSED =>
      {| project_dir := project_dir self; results := results';
         passed := passed self + 1; failed := failed self;
         warnings := warnings self; skipped := skipped self |}
  | FAILED =>
      {| project_dir := project_dir self; results := results';
         passed := passed self; failed := failed self + 1;
         warnings := warnings self; skipped := skipped self |}
  | WARNING =>
      {| project_dir := project_dir self; results := results';
         passed := passed self; failed := failed self;
         warnings := warnings self + 1; skipped := skipped self |}
  | _ =>
      {| project_dir := project_dir self; results := results';
         passed := passed self; failed := failed self;
         warnings := warnings self; skipped := skipped self + 1 |}
  end.

(** A report after a sequence of [add_result] calls. *)
Definition add_results (self : ValidationReport)
    (rs : list ValidationResult) : ValidationReport :=
  fold_left add_result rs self.

Definition success (self : ValidationReport) : bool :=
  (failed self =? 0)%Z.

(** [score], with the true division and the product taken exactly. *)
Definition score (self : ValidationReport) : Q :=
  let total := (passed self + failed self + warnings self)%Z in
  if (total =? 0)%Z then 100%Q
  else ((inject_Z (passed self) / inject_Z total) * 100)%Q.

Definition status_eqb (a b : CheckStatus) : bool :=
  match a, b with
  | PASSED, PASSED | FAILED, FAILED | WARNING, WARNING
  | SKIPPED, SKIPPED => true
  | _, _ => false
  end.

(** The number of stored results with a given status. *)
Definition count_status (s : CheckStatus) (rs : list ValidationResult)
  : Z :=
  Z.of_nat (length (List.filter (fun r => status_eqb (status r) s) rs)).

(** The number of stored results whose status is none of [PASSED],
    [FAILED] and [WARNING]. *)
Definition count_other (rs : list ValidationResult) : Z :=
  Z.of_nat (length (List.filter
    (fun r => negb (status_eqb (status r) PASSED ||
                    status_eqb (status r) FAILED ||
                    status_eqb (status r) WARNING)) rs)).
End Validation.

(** ** Further definitions: time slept by the retry wrapper *)

(** The seconds slept along a trace of the wrapper. *)
Fixpoint total_sleep (trace : list Retry.event) : Q :=
  match trace with
  | [] => 0
  | Retry.Sleep delay :: trace' => delay + total_sleep trace'
  | Retry.Invoke _ :: trace' => total_sleep trace'
  end.

(** ** [EnhancedBaseAgent._call_llm] *)

Module Agent.
Section CallLlm.
Variable md5_hexdigest : list N -> str.

(** The body of [_call_llm], the function that
    [retry_with_backoff(max_retries=3, base_delay=2.0)] wraps: one attempt.
    [cache_responses] is the truth value of
    [self.config.get("execution", "cache_responses", default=True)],
    [has_client] that of [self.client]; [api] is how the chat-completion
    request of this attempt ends, with the text of the first choice or with
    an [Exception] (a reply without text content is not considered);
    [now_get] and [now_set] are the readings of the clock inside
    [cache.get] and [cache.set].  The result is the outcome of the
    attempt, the cache afterwards, and whether the request was sent. *)
Definition _call_llm (cache : ResponseCache.t) (model prompt : str)
    (use_cache cache_responses has_client : bool) (api : res str)
    (now_get now_set : Z) : res str * ResponseCache.t * bool :=
  let request (cache : ResponseCache.t) : res str * ResponseCache.t * bool :=
    if negb has_client then
      (Ok (lit "Error: OpenAI package not installed"), cache, false)
    else
      match api with
      | Raise e => (Raise e, cache, true)
      | Ok result =>
          if use_cache && cache_responses then
            match ResponseCache.set md5_hexdigest cache prompt model result
                    now_set with
            | (Ok _, cache') => (Ok result, cache', true)
            | (Raise e, cache') => (Raise e, cache', true)
            end
          else (Ok result, cache, true)
      end in
  if use_cache && cache_responses then
    match ResponseCache.get md5_hexdigest cache prompt model now_get with
    | (Raise e, cache') => (Raise e, cache', false)
    | (Ok (Some cached), cache') =>
        if bool_decide (cached = []) then request cache'
        else (Ok cached, cache', false)
    | (Ok None, cache') => request cache'
    end
  else request cache.
End CallLlm.

Section GenerateCode.
Variable json_loads : str -> loads_result.

(** The last step of every agent method ([generate_code] and the
    others): the reply of [_call_llm] goes through [_parse_json]. *)
Definition parse_reply (reply : str) : res json :=
  _parse_json json_loads reply.
End GenerateCode.
End Agent.

(** ** [ConfigManager] *)

Module ConfigManager.
(** Configuration trees are the values [yaml.safe_load] and the literal
    [DEFAULT_CONFIG] are made of, with strings as dict keys. *)

(** [get] with its positional [keys] and its [default], started at any
    value. *)
Fixpoint get_from (value : json) (keys : list str) (default : json) : json :=
  match keys with
  | [] => value
  | key :: keys' =>
      match value with
      | JDict d =>
          match dict_get key d with
          | Some value' => get_from value' keys' default
          | None => default
          end
      | _ => default
      end
  end.

Definition get (config : list (str * json)) (keys : list str) (default : json)
  : json :=
  get_from (JDict config) keys default.

(** [_deep_merge(base, override)]: the dict [base] as it is after the
    call.  The recursion descends into the values of [override]. *)
Fixpoint merge_into (override : json) (base : list (str * json))
  : list (str * json) :=
  match override with
  | JDict items =>
      (fix loop (items : list (str * json)) (base : list (str * json))
         : list (str * json) :=
         match items with
         | [] => base
         | (key, value) :: items' =>
             loop items'
               match dict_get key base, value with
               | Some (JDict sub), JDict _ =>
                   dict_set key (JDict (merge_into value sub)) base
               | _, _ => dict_set key value base
               end
         end) items base
  | _ => base
  end.

Definition _deep_merge (base override : list (str * json))
  : list (str * json) :=
  merge_into (JDict override) base.

(** What one iteration of the loop of [_deep_merge] does to [base]. *)
Definition merge_entry (base : list (str * json)) (key : str) (value : json)
  : list (str * json) :=
  match dict_get key base, value with
  | Some (JDict sub), JDict override' =>
      dict_set key (JDict (_deep_merge sub override')) base
  | _, _ => dict_set key value base
  end.

(** [_load_config]: [yaml_config] is what [yaml.safe_load] returned, or
    [None] when the module or the file is missing or loading raised.  A
    value that is not a dict either is falsy and skipped, or makes
    [override.items()] raise before anything is merged, which the [except]
    clause swallows. *)
Definition _load_config (config : list (str * json))
    (yaml_config : option json) : list (str * json) :=
  match yaml_config with
  | Some (JDict override) => _deep_merge config override
  | _ => config
  end.

(** [value] is what lies in [tree] at the end of the path [keys], through
    dicts none of which lists a key twice. *)
Fixpoint reaches (tree : json) (keys : list str) (value : json) : Prop :=
  match keys with
  | [] => tree = value
  | key :: keys' =>
      exists d tree',
        tree = JDict d /\ dict_wf d /\ In (key, tree') d /\
        reaches tree' keys' value
  end.

(** The override leaves the path [keys] of the base alone: at some dict
    on the way down it does not mention the next key. *)
Fixpoint spares (override : list (str * json)) (keys : list str) : Prop :=
  match keys with
  | [] => False
  | key :: keys' =>
      ¬ In key (dict_keys override) \/
      exists override',
        dict_wf override /\ In (key, JDict override') override /\
        spares override' keys'
  end.

Definition is_dict (value : json) : bool :=
  match value with
  | JDict _ => true
  | _ => false
  end.

(** The value found under [key] once the entry [(key, value)] of an
    override has been merged into [base]. *)
Definition merged_value (base : list (str * json)) (key : str) (value : json)
  : json :=
  match dict_get key base, value with
  | Some (JDict sub), JDict override' => JDict (_deep_merge sub override')
  | _, _ => value
  end.
End ConfigManager.

(** ** [ConfigManager.__init__] and the model an agent is bound to *)

Module ConfigInit.
Definition KeyError : exn := OtherException 1.
Definition TypeError : exn := OtherException 2.
Definition IndexError : exn := OtherException 3.

Definition gemini : json := JStr (lit "google/gemini-2.0-flash-001").

Definition DEFAULT_CONFIG : list (str * json) :=
  [ (lit "api", JDict
       [ (lit "provider", JStr (lit "openrouter"));
         (lit "base_url", JStr (lit "https://openrouter.ai/api/v1"));
         (lit "models", JDict
            [ (lit "reasoning", gemini);
              (lit "coding", gemini);
              (lit "creative", gemini);
              (lit "analysis", gemini) ]);
         (lit "max_retries", JInt 3);
         (lit "retry_delay", JInt 2);
         (lit "timeout", JInt 120) ]);
    (lit "project", JDict
       [ (lit "output_dir", JStr (lit "projects"));
         (lit "templates_dir", JStr (lit "templates")) ]);
    (lit "execution", JDict
       [ (lit "parallel", JBool true);
         (lit "max_concurrent", JInt 4);
         (lit "cache_responses", JBool true);
         (lit "cache_ttl", JInt 3600);
         (lit "verbose", JBool true) ]);
    (lit "logging", JDict
       [ (lit "level", JStr (lit "INFO"));
         (lit "file", JStr (lit "logs/brigade.log")) ]) ].

(** [for key in models: models[key] = model] *)
Definition set_every_model (models : list (str * json)) (model : str)
  : list (str * json) :=
  fold_left (fun models key => dict_set key (JStr model) models)
    (dict_keys models) models.

(** The first [if] of [_apply_env_overrides]; [env_api_key] is
    [os.getenv("OPENROUTER_API_KEY")].  Subscripting or assigning into a
    value that is not a dict raises. *)
Definition override_api_key (config : list (str * json))
    (env_api_key : option str) : res (list (str * json)) :=
  match env_api_key with
  | Some (c :: s) =>
      match dict_get (lit "api") config with
      | None => Raise KeyError
      | Some (JDict api) =>
          Ok (dict_set (lit "api")
                (JDict (dict_set (lit "api_key") (JStr (c :: s)) api)) config)
      | Some _ => Raise TypeError
      end
  | _ => Ok config
  end.

(** [l[key] = value] for a list [l]: [key] has to be an integer (a bool
    counts as one) within [-len(l) .. len(l) - 1]. *)
Definition list_set_item (l : list json) (key value : json)
  : res (list json) :=
  let at_index (n : Z) : res (list json) :=
    let len := Z.of_nat (length l) in
    if ((0 <=? n) && (n <? len))%Z then Ok (<[Z.to_nat n := value]> l)
    else if ((- len <=? n) && (n <? 0))%Z then
      Ok (<[Z.to_nat (len + n) := value]> l)
    else Raise IndexError in
  match key with
  | JInt n => at_index n
  | JBool b => at_index (if b then 1 else 0)%Z
  | _ => Raise TypeError
  end.

(** [for key in l: l[key] = value] for a list [l], which the loop walks
    by position while it assigns; [todo] positions are left, from [i]. *)
Fixpoint list_set_every (todo i : nat) (l : list json) (value : json)
  : res (list json) :=
  match todo with
  | O => Ok l
  | S todo' =>
      match l !! i with
      | None => Ok l
      | Some key =>
          res_bind (list_set_item l key value)
            (fun l' => list_set_every todo' (S i) l' value)
      end
  end.

(** The second [if]; [env_model] is [os.getenv("BRIGADE_MODEL")].  The
    loop runs over whatever [models] is: the keys of a dict, the items of
    a list (used as indices), the characters of a string (which cannot be
    assigned to); other values cannot be iterated. *)
Definition override_models (config : list (str * json))
    (env_model : option str) : res (list (str * json)) :=
  match env_model with
  | Some (c :: s) =>
      match dict_get (lit "api") config with
      | None => Raise KeyError
      | Some (JDict api) =>
          let store (models : json) : list (str * json) :=
            dict_set (lit "api")
              (JDict (dict_set (lit "models") models api)) config in
          match dict_get (lit "models") api with
          | None => Raise KeyError
          | Some (JDict models) =>
              Ok (store (JDict (set_every_model models (c :: s))))
          | Some (JList l) =>
              res_bind (list_set_every (length l) 0 l (JStr (c :: s)))
                (fun l' => Ok (store (JList l')))
          | Some (JStr []) => Ok config
          | Some _ => Raise TypeError
          end
      | Some _ => Raise TypeError
      end
  | _ => Ok config
  end.

Definition _apply_env_overrides (config : list (str * json))
    (env_api_key env_model : option str) : res (list (str * json)) :=
  res_bind (override_api_key config env_api_key)
    (fun config => override_models config env_model).

(** [ConfigManager(config_path)]: the configuration of the new manager,
    from the defaults, the YAML file and the environment.  [defaults] is
    what the class attribute [DEFAULT_CONFIG] holds when the manager is
    built: the literal above for the first manager of a process; since
    [DEFAULT_CONFIG.copy()] is a shallow copy, the nested dicts that a
    merge or an override changes are those of the class attribute, and a
    later manager starts from them as they were left. *)
Definition init (defaults : list (str * json)) (yaml_config : option json)
    (env_api_key env_model : option str) : res (list (str * json)) :=
  _apply_env_overrides
    (ConfigManager._load_config defaults yaml_config)
    env_api_key env_model.

(** [EnhancedBaseAgent.__init__]: [self.model] for a [model_type]. *)
Definition model_for (config : list (str * json)) (model_type : str) : json :=
  ConfigManager.get config [lit "api"; lit "models"; model_type] gemini.
End ConfigInit.

(** ** [EnhancedOrchestrator._extract_name] *)

(** [s.split()]: the maximal runs of code points that are not whitespace;
    [word] collects the run being read, last code point first. *)
Fixpoint split_whitespace_from (s : str) (word : str) : list str :=
  match s with
  | [] => match word with [] => [] | _ => [rev word] end
  | c :: s' =>
      if isspace c then
        match word with
        | [] => split_whitespace_from s' []
        | _ => rev word :: split_whitespace_from s' []
        end
      else split_whitespace_from s' (c :: word)
  end.
Definition split_whitespace (s : str) : list str := split_whitespace_from s [].

(** [sep.join(parts)] *)
Fixpoint join (sep : str) (parts : list str) : str :=
  match parts with
  | [] => []
  | [p] => p
  | p :: parts' => p ++ sep ++ join sep parts'
  end.

Module Naming.
Section ExtractName.
(** [str.lower], and [str.isalnum] on one code point. *)
Variable lower : str -> str.
Variable isalnum_char : N -> bool.

(** [w.isalnum()]: every code point is alphanumeric and there is at least
    one. *)
Definition isalnum (w : str) : bool :=
  negb (bool_decide (w = [])) && forallb isalnum_char w.

Definition _extract_name (description : str) : str :=
  let words := take 4 (split_whitespace (lower description)) in
  let name := join (lit "-") (List.filter isalnum words) in
  match take 30 name with
  | [] => lit "new-project"
  | name => name
  end.
End ExtractName.
End Naming.

(** [str.isalnum] on ASCII: digits and letters. *)
Definition ascii_isalnum (c : N) : bool :=
  ((48 <=? c) && (c <=? 57) || (65 <=? c) && (c <=? 90) ||
   (97 <=? c) && (c <=? 122))%N.

(** ** [QualityGate], [QUALITY_GATES] and [ValidationPipeline.run_post_checks] *)

Module Quality.
Import Validation.

Record QualityGate : Type := {
  gate_name : str;
  min_score : Q;
  max_failures : Z;
  max_warnings : Z;
  required_checks : list str
}.

(** The inner loop of [evaluate]: is there a result with this name and
    status [PASSED]? *)
Fixpoint found_passed (req : str) (results : list ValidationResult) : bool :=
  match results with
  | [] => false
  | result :: results' =>
      if bool_decide (name result = req) && status_eqb (status result) PASSED
      then true
      else found_passed req results'
  end.

(** The outer loop. *)
Fixpoint all_required_passed (required : list str)
    (results : list ValidationResult) : bool :=
  match required with
  | [] => true
  | req :: required' =>
      if found_passed req results then all_required_passed required' results
      else false
  end.

Definition evaluate (self : QualityGate) (report : ValidationReport) : bool :=
  if (failed report >? max_failures self)%Z then false
  else if (warnings report >? max_warnings self)%Z then false
  else if negb (Qle_bool (min_score self) (score report)) then false
  else all_required_passed (required_checks self) (results report).

Definition basic : QualityGate :=
  {| gate_name := lit "Basic"; min_score := 50; max_failures := 2;
     max_warnings := 10; required_checks := [] |}.

Definition standard : QualityGate :=
  {| gate_name := lit "Standard"; min_score := 70; max_failures := 0;
     max_warnings := 5;
     required_checks := [lit "README.md exists"; lit "Code directory"] |}.

Definition strict : QualityGate :=
  {| gate_name := lit "Strict"; min_score := 90; max_failures := 0;
     max_warnings := 2;
     required_checks :=
       [lit "README.md exists"; lit "Code directory";
        lit "Docker configuration"; lit "Test files"] |}.

Definition QUALITY_GATES : list (str * QualityGate) :=
  [ (lit "basic", basic); (lit "standard", standard); (lit "strict", strict) ].

(** [QUALITY_GATES.get(quality_gate, QUALITY_GATES["standard"])], the
    gate [run_validation] evaluates. *)
Definition select_gate (quality_gate : str) : QualityGate :=
  default standard (dict_get quality_gate QUALITY_GATES).

(** A check function: its [__name__] and what calling it on a project
    directory gives, a result or an [Exception]. *)
Record check : Type := {
  check_name : str;
  run_check : str -> res ValidationResult
}.

Section PostChecks.
(** [str(e)] *)
Variable str_of_exn : exn -> str.

(** The result recorded when the project directory does not exist. *)
Definition missing_directory (project_dir : str) : ValidationResult :=
  {| name := lit "Project directory"; status := FAILED;
     category := STRUCTURE;
     message := lit "Project directory not found: " ++ project_dir;
     details := None; severity := lit "error" |}.

(** The result recorded for a check that raised. *)
Definition check_error (c : check) (e : exn) : ValidationResult :=
  {| name := check_name c; status := FAILED; category := CODE;
     message := lit "Check failed: " ++ str_of_exn e;
     details := None; severity := lit "error" |}.

(** What a check leaves in the report: its result, or the record of its
    exception. *)
Definition result_of_check (project_dir : str) (c : check)
  : ValidationResult :=
  match run_check c project_dir with
  | Ok result => result
  | Raise e => check_error c e
  end.

(** The body of the [for check in self.post_checks] loop. *)
Definition record_check (project_dir : str) (report : ValidationReport)
    (c : check) : ValidationReport :=
  match run_check c project_dir with
  | Ok result => add_result report result
  | Raise e => add_result report (check_error c e)
  end.

(** [dir_exists] is [os.path.exists(project_dir)]. *)
Definition run_post_checks (post_checks : list check) (project_dir : str)
    (dir_exists : bool) : ValidationReport :=
  if negb dir_exists then
    add_result (fresh project_dir) (missing_directory project_dir)
  else
    fold_left (record_check project_dir) post_checks (fresh project_dir).
End PostChecks.
End Quality.

(** ** [ProfileManager.list_profiles] *)

Module Profiles.
(** [list(self.profiles.keys())]: the keys of [PROFILES], in order. *)
Definition list_profiles : list str :=
  List.map lit
    ["web_app"; "ml_project"; "mobile_app"; "cli_tool"; "microservices";
     "api_backend"; "data_pipeline"; "iot_project"; "chrome_extension";
     "desktop_app"]%string.
End Profiles.

(** ** [ValidationChecks] and the default pipeline *)

Module Checks.
Import Validation.

(** [str(n)] for a number that is not negative. *)
Definition decimal_N (n : N) : str :=
  lit (NilZero.string_of_uint (N.to_uint n)).
Definition decimal (n : nat) : str :=
  lit (NilZero.string_of_uint (Nat.to_uint n)).

(** A path that [rglob] yields: [str(path)], [path.name],
    [str(path.relative_to(project_dir))], [path.is_file()], and what
    [path.read_text(encoding='utf-8', errors='ignore')] returns ([None]
    when it raises). *)
Record entry : Type := {
  path_text : str;
  entry_name : str;
  relative_text : str;
  is_file : bool;
  read_text : option str
}.

(** What the file system answers about one project directory; names are
    relative to it.  The calls are taken not to raise. *)
Record project_files : Type := {
  path_exists : str -> bool;          (* (Path(project_dir) / name).exists() *)
  is_dir : str -> bool;               (* (Path(project_dir) / name).is_dir() *)
  st_size : str -> N;                 (* (...).stat().st_size *)
  rglob : str -> list entry;          (* Path(project_dir).rglob(pattern) *)
  code_rglob : list entry             (* (Path(project_dir) / "10_Code").rglob("*") *)
}.

(** [ValidationResult(...)] with the default [details] and [severity]. *)
Definition result (n : string) (s : CheckStatus) (c : CheckCategory)
    (m : str) : ValidationResult :=
  {| name := lit n; status := s; category := c; message := m;
     details := None; severity := lit "error" |}.

(** [ValidationResult(..., severity="warning")] *)
Definition warning (n : string) (c : CheckCategory) (m : str)
  : ValidationResult :=
  {| name := lit n; status := WARNING; category := c; message := m;
     details := None; severity := lit "warning" |}.

Definition check_readme_exists (files : project_files) : ValidationResult :=
  if path_exists files (lit "README.md") then
    let size := st_size files (lit "README.md") in
    if (500 <? size)%N then
      result "README.md exists" PASSED DOCUMENTATION
        (lit "README.md found (" ++ decimal_N size ++ lit " bytes)")
    else
      warning "README.md exists" DOCUMENTATION (lit "README.md is too short")
  else
    result "README.md exists" FAILED DOCUMENTATION (lit "README.md not found").

Definition check_code_directory (files : project_files) : ValidationResult :=
  if path_exists files (lit "10_Code") && is_dir files (lit "10_Code") then
    let file_count := length (List.filter is_file (code_rglob files)) in
    if (0 <? file_count)%nat then
      result "Code directory" PASSED STRUCTURE
        (lit "10_Code/ found with " ++ decimal file_count ++ lit " files")
    else
      warning "Code directory" STRUCTURE (lit "10_Code/ is empty")
  else
    result "Code directory" FAILED STRUCTURE
      (lit "10_Code/ directory not found").

Definition check_dockerfile (files : project_files) : ValidationResult :=
  if path_exists files (lit "Dockerfile") ||
     path_exists files (lit "docker-compose.yml") then
    result "Docker configuration" PASSED DEVOPS
      (lit "Docker configuration found")
  else
    match rglob files (lit "Dockerfile*") with
    | [] =>
        warning "Docker configuration" DEVOPS
          (lit "No Docker configuration found")
    | dockerfiles =>
        result "Docker configuration" PASSED DEVOPS
          (lit "Found " ++ decimal (length dockerfiles) ++ lit " Dockerfile(s)")
    end.

(** The inner loop of [check_requirements] over the hits of one [rglob]. *)
Fixpoint add_found (hits : list entry) (found : list str) : list str :=
  match hits with
  | [] => found
  | f :: hits' =>
      add_found hits'
        (if bool_decide (entry_name f ∈ found) then found
         else found ++ [relative_text f])
  end.

(** The outer loop, over the names of dependency files. *)
Fixpoint find_requirements (files : project_files) (req_files : list str)
    (found : list str) : list str :=
  match req_files with
  | [] => found
  | req :: req_files' =>
      let found :=
        if path_exists files req then found ++ [req] else found in
      find_requirements files req_files' (add_found (rglob files req) found)
  end.

Definition check_requirements (files : project_files) : ValidationResult :=
  let req_files :=
    List.map lit ["requirements.txt"; "pyproject.toml"; "package.json";
                  "Pipfile"; "setup.py"]%string in
  match find_requirements files req_files [] with
  | [] =>
      warning "Dependency files" CONFIGURATION
        (lit "No dependency file found")
  | found =>
      result "Dependency files" PASSED CONFIGURATION
        (lit "Found: " ++ join (lit ", ") (take 3 found))
  end.

Definition check_tests_exist (files : project_files) : ValidationResult :=
  let test_patterns :=
    List.map lit ["test_*.py"; "*_test.py"; "*.test.js"; "*.spec.js";
                  "*.test.ts"]%string in
  match concat (List.map (rglob files) test_patterns) with
  | [] => warning "Test files" CODE (lit "No test files found")
  | test_files =>
      result "Test files" PASSED CODE
        (lit "Found " ++ decimal (length test_files) ++ lit " test file(s)")
  end.

Definition check_gitignore (files : project_files) : ValidationResult :=
  if path_exists files (lit ".gitignore") then
    result ".gitignore" PASSED CONFIGURATION (lit ".gitignore found")
  else
    warning ".gitignore" CONFIGURATION (lit ".gitignore not found").

Definition check_architecture_doc (files : project_files)
  : ValidationResult :=
  if path_exists files (lit "03_Architecture.md") then
    let size := st_size files (lit "03_Architecture.md") in
    if (1000 <? size)%N then
      result "Architecture documentation" PASSED DOCUMENTATION
        (lit "03_Architecture.md found (" ++ decimal_N size ++ lit " bytes)")
    else
      warning "Architecture documentation" DOCUMENTATION
        (lit "Architecture doc is sparse")
  else
    warning "Architecture documentation" DOCUMENTATION
      (lit "03_Architecture.md not found").

Definition check_env_example (files : project_files) : ValidationResult :=
  if path_exists files (lit ".env.example") ||
     path_exists files (lit ".env.sample") then
    result "Environment template" PASSED SECURITY (lit ".env.example found")
  else if path_exists files (lit ".env") then
    warning "Environment template" SECURITY
      (lit ".env exists but no .env.example template")
  else
    result "Environment template" SKIPPED SECURITY
      (lit "No .env configuration needed").

Section SensitiveData.
(** [str.lower] *)
Variable lower : str -> str.

Definition sensitive_patterns : list str :=
  List.map lit ["password="; "api_key="; "secret="; "token="; "sk-";
                "Bearer "; "AWS_SECRET"]%string.

(** The loop over the patterns for one file that could be read: the issue
    recorded for it, if any. *)
Fixpoint first_issue (f : entry) (content : str) (patterns : list str)
  : option str :=
  match patterns with
  | [] => None
  | pattern :: patterns' =>
      if contains (lower content) (lower pattern) then
        if negb (contains (path_text f) (lit ".example")) &&
           negb (contains (lower (path_text f)) (lit "template"))
        then Some (entry_name f ++ lit ": potential " ++ pattern)
        else first_issue f content patterns'
      else first_issue f content patterns'
  end.

Definition issue_of (f : entry) : option str :=
  match read_text f with
  | Some content => first_issue f content sensitive_patterns
  | None => None
  end.

Definition check_sensitive_data (files : project_files) : ValidationResult :=
  let code_files :=
    concat (List.map (rglob files)
              (List.map lit ["*.py"; "*.js"; "*.ts"; "*.yaml"; "*.yml";
                             "*.json"]%string)) in
  match omap issue_of (take 50 code_files) with
  | [] =>
      result "Sensitive data check" PASSED SECURITY
        (lit "No obvious sensitive data found")
  | issues =>
      {| name := lit "Sensitive data check"; status := WARNING;
         category := SECURITY;
         message := lit "Found " ++ decimal (length issues) ++
                    lit " potential issues";
         details := Some (join (lit "; ") (take 3 issues));
         severity := lit "warning" |}
  end.

(** The results of the nine default checks, in the order of
    [ValidationPipeline.__init__]. *)
Definition default_results (files : project_files) : list ValidationResult :=
  [ check_readme_exists files; check_code_directory files;
    check_dockerfile files; check_requirements files;
    check_tests_exist files; check_gitignore files;
    check_architecture_doc files; check_env_example files;
    check_sensitive_data files ].

(** One default check as a check function; [observe] gives the answers
    of the file system for a project directory. *)
Definition default_check (observe : str -> project_files) (n : string)
    (f : project_files -> ValidationResult) : Quality.check :=
  Quality.Build_check (lit n)
    (fun project_dir => Ok (f (observe project_dir))).

(** [self.post_checks] of a new pipeline. *)
Definition default_post_checks (observe : str -> project_files)
  : list Quality.check :=
  [ default_check observe "check_readme_exists" check_readme_exists;
    default_check observe "check_code_directory" check_code_directory;
    default_check observe "check_dockerfile" check_dockerfile;
    default_check observe "check_requirements" check_requirements;
    default_check observe "check_tests_exist" check_tests_exist;
    default_check observe "check_gitignore" check_gitignore;
    default_check observe "check_architecture_doc" check_architecture_doc;
    default_check observe "check_env_example" check_env_example;
    default_check observe "check_sensitive_data" check_sensitive_data ].
End SensitiveData.
End Checks.

(** What a gate looks at in a result: its name and its status. *)
Definition name_status (x : Validation.ValidationResult)
  : str * Validation.CheckStatus :=
  (Validation.name x, Validation.status x).

(** A result with a given name and status and nothing else to say. *)
Definition plain_result (ns : str * Validation.CheckStatus)
  : Validation.ValidationResult :=
  {| Validation.name := ns.1; Validation.status := ns.2;
     Validation.category := Validation.CODE; Validation.message := [];
     Validation.details := None; Validation.severity := [] |}.

(** [status == CheckStatus.PASSED] *)
Definition is_passed (x : Validation.ValidationResult) : bool :=
  Validation.status_eqb (Validation.status x) Validation.PASSED.

(** ** Well-formed configuration trees *)

(** The number of nodes of a tree. *)
Fixpoint json_size (j : json) : nat :=
  match j with
  | JList l => S (list_sum (List.map json_size l))
  | JDict d =>
      S (list_sum (List.map (fun kv => let (_, v) := kv : str * json in
                                       json_size v) d))
  | _ => 1
  end.

(** No dict anywhere in the tree lists a key twice, as in every tree that
    Python builds. *)
Fixpoint json_wf (j : json) : Prop :=
  match j with
  | JList l => fold_right (fun v acc => json_wf v /\ acc) True l
  | JDict d =>
      dict_wf d /\
      fold_right (fun kv acc => (let (_, v) := kv : str * json in json_wf v)
                                /\ acc) True d
  | _ => True
  end.

(** ** [EnhancedOrchestrator._create_structure] *)

(** [posixpath.dirname]: one way to instantiate [os.path.dirname] below. *)
Fixpoint drop_to_slash (reversed : str) : str :=
  match reversed with
  | [] => []
  | c :: rest => if (c =? 47)%N then reversed else drop_to_slash rest
  end.
Fixpoint lstrip_slashes (s : str) : str :=
  match s with
  | [] => []
  | c :: rest => if (c =? 47)%N then lstrip_slashes rest else s
  end.
Definition posix_dirname (p : str) : str :=
  let head := rev (drop_to_slash (rev p)) in
  if bool_decide (lstrip_slashes head = []) then head
  else rev (lstrip_slashes (rev head)).

Module Structure.
(** The literal list the method iterates over. *)
Definition structure : list str :=
  [ lit "01_Proposal.md"; lit "02_Project_Report.md";
    lit "03_Architecture.md"; lit "04_SRS.md"; lit "05_PPT.md";
    lit "06_Demo.md"; lit "07_Testing.md"; lit "08_Risk_and_Security.md";
    lit "09_Assets/Diagrams/.gitkeep"; lit "09_Assets/DataSets/.gitkeep";
    lit "09_Assets/Screenshots/.gitkeep"; lit "10_Code/Frontend/.gitkeep";
    lit "10_Code/Backend/.gitkeep"; lit "10_Code/AI_Agents/.gitkeep";
    lit "10_Code/Scripts/.gitkeep" ].

(** The file system as the method sees and affects it: the paths for
    which [os.path.exists] holds, and the writes completed so far, oldest
    first.  (What a call that raises leaves behind is not recorded.) *)
Record disk : Type := Disk {
  present : gset str;
  written : Orchestrator.fs
}.

(** [Path(path).stem] for a path that ends in a file name: the last
    component, without its last suffix when the dot is neither its first
    nor its last character. *)
Fixpoint take_to_slash (reversed : str) : str :=
  match reversed with
  | [] => []
  | c :: rest => if (c =? 47)%N then [] else c :: take_to_slash rest
  end.
Fixpoint drop_to_dot (reversed : str) : option str :=
  match reversed with
  | [] => None
  | c :: rest => if (c =? 46)%N then Some rest else drop_to_dot rest
  end.
Definition stem (path : str) : str :=
  let name := rev (take_to_slash (rev path)) in
  match rev name with
  | [] => name
  | c :: _ =>
      if (c =? 46)%N then name
      else match drop_to_dot (rev name) with
           | Some ((_ :: _) as front) => rev front
           | _ => name
           end
  end.

(** [s.replace('_', ' ')] *)
Definition underscores_to_spaces (s : str) : str :=
  List.map (fun c => if (c =? 95)%N then 32%N else c) s.

(** What the method writes to a file it creates. *)
Definition text_of (path : str) : str :=
  if endswith path (lit ".md") then
    lit "# " ++ underscores_to_spaces (stem path) ++ [10%N; 10%N]
  else [].

Section CreateStructure.
(** [os.path.join] on its list of components, and [os.path.dirname]. *)
Variable os_path_join : list str -> str.
Variable os_path_dirname : str -> str.
(** The directories above a directory, which [os.makedirs] creates with
    it when they are missing. *)
Variable parents : str -> list str.
(** The exception, if any, that [os.makedirs(name, exist_ok=True)]
    raises, and the one that [open(full_path, 'w')] or [f.write] raises
    for a text. *)
Variable makedirs_error : disk -> str -> option exn.
Variable open_error : disk -> str -> str -> option exn.
Variable project_dir : str.

Definition full_path_of (path : str) : str :=
  os_path_join [project_dir; path].

Definition makedirs (name : str) (d : disk) : res disk :=
  match makedirs_error d name with
  | Some e => Raise e
  | None =>
      Ok (Disk (present d ∪ {[ name ]} ∪ list_to_set (parents name))
            (written d))
  end.

Definition os_path_exists (path : str) (d : disk) : bool :=
  bool_decide (path ∈ present d).

Definition write_file (full_path text : str) (d : disk) : res disk :=
  match open_error d full_path text with
  | Some e => Raise e
  | None =>
      Ok (Disk (present d ∪ {[ full_path ]})
            (written d ++ [(full_path, text)]))
  end.

(** The [for path in structure] loop. *)
Fixpoint create_paths (paths created : list str) (d : disk)
  : res (list str) * disk :=
  match paths with
  | [] => (Ok created, d)
  | path :: paths' =>
      let full_path := full_path_of path in
      match makedirs (os_path_dirname full_path) d with
      | Raise e => (Raise e, d)
      | Ok d1 =>
          if os_path_exists full_path d1 then create_paths paths' created d1
          else
            match write_file full_path (text_of path) d1 with
            | Raise e => (Raise e, d1)
            | Ok d2 => create_paths paths' (created ++ [path]) d2
            end
      end
  end.

Definition _create_structure (d : disk) : res (list str) * disk :=
  create_paths structure [] d.
End CreateStructure.

(** A file system on which no call fails and [os.makedirs] has no
    parents to create. *)
Definition no_parents (name : str) : list str := [].
Definition no_makedirs_error (d : disk) (name : str) : option exn := None.
Definition no_open_error (d : disk) (full_path text : str) : option exn :=
  None.
End Structure.

(* ===================================================================== *)
(** * Part II: properties *)
(* ===================================================================== *)

(** ** Dictionaries *)

Section DictFacts.
Context {V : Type}.
Implicit Types (d : list (str * V)) (k : str) (v : V).

Lemma dict_get_set_same k v d : dict_get k (dict_set k v d) = Some v.
Proof.
  induction d as [|[k' v'] d IH]; simpl.
  - by rewrite decide_True.
  - destruct (decide (k' = k)) as [->|Hne]; simpl.
    + by rewrite decide_True.
    + by rewrite decide_False.
Qed.

Lemma dict_get_set_other k k' v d :
  k ≠ k' -> dict_get k' (dict_set k v d) = dict_get k' d.
Proof.
  intros Hne. induction d as [|[k0 v0] d IH]; simpl.
  - by rewrite decide_False.
  - destruct (decide (k0 = k)) as [->|Hk]; simpl.
    + by rewrite !decide_False.
    + by rewrite IH.
Qed.

Lemma dict_get_del_same k d : dict_get k (dict_del k d) = None.
Proof.
  induction d as [|[k' v'] d IH]; simpl; [done|].
  destruct (decide (k' = k)); simpl; [done|]. by rewrite decide_False.
Qed.

Lemma dict_get_Some_In k v d : dict_get k d = Some v -> In (k, v) d.
Proof.
  induction d as [|[k' v'] d IH]; simpl; [done|].
  destruct (decide (k' = k)) as [->|]; intros H.
  - left. congruence.
  - right. auto.
Qed.

Lemma dict_get_is_Some k d : In k (dict_keys d) -> is_Some (dict_get k d).
Proof.
  induction d as [|[k' v'] d IH]; simpl; [done|].
  destruct (decide (k' = k)); [eauto|]. intros [?|?]; [done|auto].
Qed.

Lemma dict_keys_del k d :
  dict_keys (dict_del k d) = List.filter (fun k' => bool_decide (k' ≠ k)) (dict_keys d).
Proof.
  induction d as [|[k' v'] d IH]; simpl; [done|].
  destruct (decide (k' = k)) as [->|Hne]; simpl.
  - rewrite bool_decide_false; [done|]. by intros ?.
  - rewrite bool_decide_true; [|done]. simpl. by f_equal.
Qed.

Lemma dict_keys_In_del k k' d :
  In k' (dict_keys (dict_del k d)) <-> In k' (dict_keys d) /\ k' ≠ k.
Proof.
  rewrite dict_keys_del, filter_In, bool_decide_eq_true. done.
Qed.

Lemma dict_keys_In_set k k' v d :
  In k' (dict_keys (dict_set k v d)) <-> k' = k \/ In k' (dict_keys d).
Proof.
  induction d as [|[k0 v0] d IH]; simpl.
  - intuition congruence.
  - destruct (decide (k0 = k)) as [->|Hne]; simpl; [intuition congruence|].
    rewrite IH. intuition congruence.
Qed.

Lemma dict_wf_del k d : dict_wf d -> dict_wf (dict_del k d).
Proof.
  unfold dict_wf. rewrite dict_keys_del. rewrite !NoDup_ListNoDup.
  apply List.NoDup_filter.
Qed.

Lemma dict_wf_set k v d : dict_wf d -> dict_wf (dict_set k v d).
Proof.
  unfold dict_wf.
  induction d as [|[k0 v0] d IH]; simpl; intros Hwf.
  - apply NoDup_singleton.
  - apply NoDup_cons in Hwf as [Hnotin Hwf].
    destruct (decide (k0 = k)) as [->|Hne]; simpl.
    + by apply NoDup_cons.
    + apply NoDup_cons. split; [|by apply IH].
      rewrite list_elem_of_In, (dict_keys_In_set k k0 v d).
      rewrite list_elem_of_In in Hnotin. intuition congruence.
Qed.

Lemma dict_set_length k v d :
  length (dict_set k v d) =
    match dict_get k d with Some _ => length d | None => S (length d) end.
Proof.
  induction d as [|[k0 v0] d IH]; simpl; [done|].
  destruct (decide (k0 = k)); simpl; [done|].
  rewrite IH. by destruct (dict_get k d).
Qed.

Lemma dict_set_length_le k v d : (length (dict_set k v d) <= S (length d))%nat.
Proof. rewrite dict_set_length. destruct (dict_get k d); lia. Qed.

Lemma dict_del_length_le k d : (length (dict_del k d) <= length d)%nat.
Proof.
  induction d as [|[k0 v0] d IH]; simpl; [done|].
  destruct (decide (k0 = k)); simpl; lia.
Qed.

Lemma dict_del_absent k d : ¬ In k (dict_keys d) -> dict_del k d = d.
Proof.
  induction d as [|[k0 v0] d IH]; simpl; [done|]. intros Hnotin.
  destruct (decide (k0 = k)) as [->|Hne]; [tauto|].
  f_equal. apply IH. tauto.
Qed.

(** Deleting a key that is present removes exactly one entry. *)
Lemma dict_del_length k d :
  dict_wf d -> In k (dict_keys d) -> S (length (dict_del k d)) = length d.
Proof.
  unfold dict_wf.
  induction d as [|[k0 v0] d IH]; simpl; [done|]. intros Hwf Hin.
  apply NoDup_cons in Hwf as [Hnotin Hwf]. rewrite list_elem_of_In in Hnotin.
  destruct (decide (k0 = k)) as [->|Hne]; simpl.
  - by rewrite dict_del_absent.
  - f_equal. apply IH; [done|]. intuition congruence.
Qed.
Lemma dict_get_of_In k v d :
  dict_wf d -> In (k, v) d -> dict_get k d = Some v.
Proof.
  unfold dict_wf.
  induction d as [|[k0 v0] d IH]; simpl; [done|]. intros Hwf Hin.
  apply NoDup_cons in Hwf as [Hnotin Hwf].
  destruct (decide (k0 = k)) as [->|Hne].
  - destruct Hin as [Heq|Hin]; [congruence|].
    exfalso. apply Hnotin, list_elem_of_In.
    apply (in_map fst) in Hin. exact Hin.
  - destruct Hin as [Heq|Hin]; [congruence|]. by apply IH.
Qed.

Lemma dict_get_None_notin k d :
  ¬ In k (dict_keys d) -> dict_get k d = None.
Proof.
  induction d as [|[k0 v0] d IH]; simpl; [done|]. intros Hnotin.
  destruct (decide (k0 = k)); [tauto|]. apply IH. tauto.
Qed.
End DictFacts.

(** ** [min] and [max] with a key *)

Section MinMax.
Context {A : Type} (f : A -> Z).

Lemma py_min_from_In best xs : In (py_min_from f best xs) (best :: xs).
Proof.
  revert best. induction xs as [|y ys IH]; intros best; simpl; [auto|].
  destruct (IH (if (f y <? f best)%Z then y else best)) as [H|H]; [|auto].
  rewrite <- H. destruct (f y <? f best)%Z; auto.
Qed.

Lemma py_min_from_le best xs x :
  In x (best :: xs) -> (f (py_min_from f best xs) <= f x)%Z.
Proof.
  revert best x. induction xs as [|y ys IH]; intros best x; simpl.
  - intros [->|[]]. lia.
  - intros Hin.
    assert (Hb : (f (py_min_from f (if (f y <? f best)%Z then y else best) ys)
                  <= f (if (f y <? f best)%Z then y else best))%Z)
      by (apply IH; simpl; auto).
    destruct Hin as [->|[->|Hin]].
    + destruct (Z.ltb_spec (f y) (f x)); lia.
    + destruct (Z.ltb_spec (f x) (f best)); lia.
    + apply IH. simpl. auto.
Qed.

Lemma py_max_from_In best xs : In (py_max_from f best xs) (best :: xs).
Proof.
  revert best. induction xs as [|y ys IH]; intros best; simpl; [auto|].
  destruct (IH (if (f best <? f y)%Z then y else best)) as [H|H]; [|auto].
  rewrite <- H. destruct (f best <? f y)%Z; auto.
Qed.

Lemma py_max_from_ge best xs x :
  In x (best :: xs) -> (f x <= f (py_max_from f best xs))%Z.
Proof.
  revert best x. induction xs as [|y ys IH]; intros best x; simpl.
  - intros [->|[]]. lia.
  - intros Hin.
    assert (Hb : (f (if (f best <? f y)%Z then y else best)
                  <= f (py_max_from f (if (f best <? f y)%Z then y else best) ys))%Z)
      by (apply IH; simpl; auto).
    destruct Hin as [->|[->|Hin]].
    + destruct (Z.ltb_spec (f x) (f y)); lia.
    + destruct (Z.ltb_spec (f best) (f x)); lia.
    + apply IH. simpl. auto.
Qed.
End MinMax.

(** ** The response cache *)

Section ResponseCacheFacts.
Import ResponseCache.
Variable md5_hexdigest : list N -> str.
Implicit Types (c : t) (prompt model response key : str) (now : Z).

Lemma hash_key_deterministic prompt model key1 key2 :
  _hash_key md5_hexdigest prompt model = Ok key1 ->
  _hash_key md5_hexdigest prompt model = Ok key2 -> key1 = key2.
Proof. congruence. Qed.

(** On a non-empty cache [min] succeeds and picks the key of an entry
    whose timestamp no other entry undercuts. *)
Lemma oldest_key_spec (d : list (str * (str * Z))) :
  dict_wf d -> d ≠ [] ->
  exists oldest resp ts,
    oldest_key d = Ok oldest /\ In (oldest, (resp, ts)) d /\
    forall entry, In entry d -> (ts <= timestamp_of entry)%Z.
Proof.
  intros Hwf Hne. unfold oldest_key.
  destruct (dict_keys d) as [|k ks] eqn:Hkeys; [by destruct d|]. simpl.
  pose proof (py_min_from_In (timestamp_at d) k ks) as Hin.
  pose proof (py_min_from_le (timestamp_at d) k ks) as Hle.
  rewrite <- Hkeys in Hin, Hle.
  set (oldest := py_min_from (timestamp_at d) k ks) in *.
  destruct (dict_get_is_Some _ _ Hin) as [[resp ts] Hget].
  exists oldest, resp, ts. split; [done|].
  split; [by apply dict_get_Some_In|].
  intros [k' [resp' ts']] Hentry.
  assert (timestamp_at d oldest <= timestamp_at d k')%Z as H.
  { apply Hle. apply (in_map fst) in Hentry. exact Hentry. }
  unfold timestamp_at in H.
  by rewrite Hget, (dict_get_of_In k' (resp', ts') d Hwf Hentry) in H.
Qed.

(** What [set] does once the key is computed and the cache is at (or
    above) its bound: one [del] of the oldest key, then the store. *)
Lemma set_when_full c prompt model response now key :
  _hash_key md5_hexdigest prompt model = Ok key ->
  (max_size c <= Z.of_nat (length (cache c)))%Z ->
  dict_wf (cache c) ->
  cache c ≠ [] ->
  exists oldest resp ts,
    In (oldest, (resp, ts)) (cache c) /\
    (forall entry, In entry (cache c) -> (ts <= timestamp_of entry)%Z) /\
    set md5_hexdigest c prompt model response now =
      (Ok (), with_cache c (dict_set key (response, now)
                              (dict_del oldest (cache c)))).
Proof.
  intros Hkey Hfull Hwf Hne.
  destruct (oldest_key_spec (cache c) Hwf Hne)
    as (oldest & resp & ts & Hold & Hin & Hmin).
  exists oldest, resp, ts. split; [done|]. split; [done|].
  unfold set. rewrite Hkey.
  destruct (Z.geb_spec (Z.of_nat (length (cache c))) (max_size c)); [|lia].
  by rewrite Hold.
Qed.

Lemma set_when_room c prompt model response now key :
  _hash_key md5_hexdigest prompt model = Ok key ->
  (Z.of_nat (length (cache c)) < max_size c)%Z ->
  set md5_hexdigest c prompt model response now =
    (Ok (), with_cache c (dict_set key (response, now) (cache c))).
Proof.
  intros Hkey Hroom. unfold set. rewrite Hkey.
  destruct (Z.geb_spec (Z.of_nat (length (cache c))) (max_size c)); [lia|done].
Qed.

(** A [set] that returns has stored the entry under the key of its
    arguments, and has left [ttl] and [max_size] alone. *)
Lemma set_stores c prompt model response now c' :
  set md5_hexdigest c prompt model response now = (Ok (), c') ->
  exists key,
    _hash_key md5_hexdigest prompt model = Ok key /\
    dict_get key (cache c') = Some (response, now) /\
    ttl c' = ttl c /\ max_size c' = max_size c.
Proof.
  unfold set. destruct (_hash_key md5_hexdigest prompt model) as [key|e]; [|done].
  intros H. exists key. split; [done|].
  destruct (Z.of_nat (length (cache c)) >=? max_size c)%Z.
  - destruct (oldest_key (cache c)) as [oldest|e]; [|done].
    injection H as <-. simpl. by rewrite dict_get_set_same.
  - injection H as <-. simpl. by rewrite dict_get_set_same.
Qed.


Lemma get_bounded c prompt model now :
  bounded c -> bounded (get md5_hexdigest c prompt model now).2.
Proof.
  intros [Hwf Hlen]. unfold get.
  destruct (_hash_key md5_hexdigest prompt model) as [key|e]; [|done].
  destruct (dict_get key (cache c)) as [[resp ts]|]; [|done].
  destruct (now - ts <? timedelta_seconds (ttl c))%Z; [done|].
  split; simpl.
  - by apply dict_wf_del.
  - pose proof (dict_del_length_le key (cache c)). lia.
Qed.

Lemma set_bounded c prompt model response now :
  (1 <= max_size c)%Z ->
  bounded c -> bounded (set md5_hexdigest c prompt model response now).2.
Proof.
  intros Hmax [Hwf Hlen]. unfold set.
  destruct (_hash_key md5_hexdigest prompt model) as [key|e]; [|done].
  destruct (Z.geb_spec (Z.of_nat (length (cache c))) (max_size c)) as [Hfull|Hroom].
  - assert (cache c ≠ []) as Hne.
    { intros Hnil. rewrite Hnil in Hfull. simpl in Hfull. lia. }
    destruct (oldest_key_spec (cache c) Hwf Hne)
      as (oldest & resp & ts & Hold & Hin & _).
    rewrite Hold. split; simpl.
    + by apply dict_wf_set, dict_wf_del.
    + assert (S (length (dict_del oldest (cache c))) = length (cache c)) as Hdel.
      { apply dict_del_length; [done|].
        unfold dict_keys. apply (in_map fst) in Hin. exact Hin. }
      pose proof (dict_set_length_le key (response, now)
                    (dict_del oldest (cache c))).
      lia.
  - split; simpl.
    + by apply dict_wf_set.
    + pose proof (dict_set_length_le key (response, now) (cache c)). lia.
Qed.

Lemma clear_bounded c : (0 <= max_size c)%Z -> bounded (clear c).
Proof. intros Hmax. split; simpl; [apply NoDup_nil_2|lia]. Qed.

Lemma apply_operation_bounded c o :
  (1 <= max_size c)%Z -> bounded c ->
  bounded (apply_operation md5_hexdigest c o) /\
  max_size (apply_operation md5_hexdigest c o) = max_size c.
Proof.
  intros Hmax Hb. destruct o as [prompt model now|prompt model response now|];
    simpl.
  - split; [by apply get_bounded|]. unfold get.
    destruct (_hash_key md5_hexdigest prompt model) as [key|e]; [|done].
    destruct (dict_get key (cache c)) as [[resp ts]|]; [|done].
    by destruct (now - ts <? timedelta_seconds (ttl c))%Z.
  - split; [by apply set_bounded|]. unfold set.
    destruct (_hash_key md5_hexdigest prompt model) as [key|e]; [|done].
    destruct (Z.of_nat (length (cache c)) >=? max_size c)%Z; [|done].
    by destruct (oldest_key (cache c)).
  - split; [apply clear_bounded; lia|done].
Qed.

Lemma run_bounded c ops :
  (1 <= max_size c)%Z -> bounded c ->
  bounded (run md5_hexdigest c ops) /\
  max_size (run md5_hexdigest c ops) = max_size c.
Proof.
  unfold run. revert c. induction ops as [|o ops IH]; intros c Hmax Hb; [done|].
  simpl. destruct (apply_operation_bounded c o Hmax Hb) as [Hb' Hmax'].
  destruct (IH (apply_operation md5_hexdigest c o)) as [Hb'' Hmax''];
    [lia|done|].
  split; [done|congruence].
Qed.


(** C8. A [get] that hits returns the stored response and leaves the
    cache exactly as it was, timestamps included; so a later [set] on the
    full cache deletes what it would have deleted without the read: an
    entry whose stored timestamp, the time of the [set] that wrote it, is
    the oldest. *)
Theorem get_hit_is_read_only c prompt model now response c' :
  dict_wf (cache c) ->
  get md5_hexdigest c prompt model now = (Ok (Some response), c') ->
  c' = c /\
  (exists key ts,
      _hash_key md5_hexdigest prompt model = Ok key /\
      dict_get key (cache c) = Some (response, ts)) /\
  (forall prompt2 model2 response2 now2 key2,
      _hash_key md5_hexdigest prompt2 model2 = Ok key2 ->
      (max_size c <= Z.of_nat (length (cache c)))%Z ->
      exists oldest resp ts,
        In (oldest, (resp, ts)) (cache c) /\
        (forall entry, In entry (cache c) -> (ts <= timestamp_of entry)%Z) /\
        set md5_hexdigest c' prompt2 model2 response2 now2 =
          (Ok (), with_cache c (dict_set key2 (response2, now2)
                                  (dict_del oldest (cache c))))).
Proof.
  intros Hwf. unfold get.
  destruct (_hash_key md5_hexdigest prompt model) as [key|e] eqn:Hkey; [|done].
  destruct (dict_get key (cache c)) as [[resp ts]|] eqn:Hget; [|done].
  destruct (now - ts <? timedelta_seconds (ttl c))%Z; [|done].
  intros H. injection H as <- <-.
  split; [done|]. split; [by exists key, ts|].
  intros prompt2 model2 response2 now2 key2 Hkey2 Hfull.
  apply set_when_full; [done|done|done|].
  intros Hnil. by rewrite Hnil in Hget.
Qed.
End ResponseCacheFacts.



(** C8 at a concrete cache: a read of the older of two entries. *)
Lemma get_hit_is_read_only_witness :
  let c := ResponseCache.mk 2 3600
             [(lit "m:a", (lit "first", 1%Z)); (lit "m:b", (lit "second", 2%Z))] in
  dict_wf (ResponseCache.cache c) /\
  ResponseCache.get identity_digest c (lit "a") (lit "m") 1000
    = (Ok (Some (lit "first")), c) /\
  exists key ts,
    ResponseCache._hash_key identity_digest (lit "a") (lit "m") = Ok key /\
    dict_get key (ResponseCache.cache c) = Some (lit "first", ts).
Proof.
  intros c.
  assert (dict_wf (ResponseCache.cache c)) as Hwf.
  { apply (bool_decide_unpack _). by vm_compute. }
  split; [exact Hwf|]. split; [reflexivity|].
  apply (get_hit_is_read_only identity_digest c (lit "a") (lit "m") 1000
           (lit "first") c Hwf eq_refl).
Defined.

(** ** The JSON fallback parser *)

Section ParseJsonFacts.
Variable json_loads : str -> loads_result.

Lemma startswith_app s p q :
  startswith s (p ++ q) = true -> startswith s p = true.
Proof.
  revert s. induction p as [|a p IH]; intros s; simpl; [by destruct s|].
  destruct s as [|b s]; simpl; [done|].
  rewrite !andb_true_iff. intros [? ?]. eauto.
Qed.

(** A text without surrounding whitespace and without a code fence at
    either end goes through the clean-up unchanged. *)
Lemma clean_response_plain response :
  strip response = response ->
  startswith response (lit "```") = false ->
  endswith response (lit "```") = false ->
  clean_response response = response.
Proof.
  intros Hstrip Hstart Hend. unfold clean_response. rewrite Hstrip.
  destruct (startswith response (lit "```json")) eqn:Hjson.
  - apply (startswith_app response (lit "```") (lit "json")) in Hjson.
    congruence.
  - by rewrite Hstart, Hend.
Qed.

(** C2, as the code has it.  A text that decodes (after trimming and
    fence removal) yields the decoded value.  A text on which [json.loads]
    raises [JSONDecodeError] yields, without an exception, the dict with
    the single key [raw_response], mapped to the text as cleaned up
    before the call of [json.loads], which is the input itself when the
    input has no surrounding whitespace and no code fence.  A text on
    which [json.loads] fails with any other exception makes [_parse_json]
    raise that exception. *)
Theorem parse_json_fallback response :
  (forall value,
      json_loads (strip (clean_response response)) = Decoded value ->
      _parse_json json_loads response = Ok value) /\
  (json_loads (strip (clean_response response)) = JSONDecodeError ->
   _parse_json json_loads response =
     Ok (JDict [(lit "raw_response", JStr (clean_response response))]) /\
   (strip response = response ->
    startswith response (lit "```") = false ->
    endswith response (lit "```") = false ->
    _parse_json json_loads response =
      Ok (JDict [(lit "raw_response", JStr response)]))) /\
  (forall e,
      json_loads (strip (clean_response response)) = LoadsRaised e ->
      _parse_json json_loads response = Raise e).
Proof.
  unfold _parse_json. split; [|split].
  - by intros value ->.
  - intros ->. split; [done|]. intros Hstrip Hstart Hend.
    by rewrite clean_response_plain.
  - by intros e ->.
Qed.
End ParseJsonFacts.

(** A reply that is one integer literal of more than 4300 digits: the
    decoder raises [ValueError], and so does [_parse_json]. *)
Lemma rev_repeat_same {A : Type} (x : A) n : rev (repeat x n) = repeat x n.
Proof.
  induction n as [|n IH]; simpl; [done|].
  rewrite IH. symmetry. apply repeat_cons.
Qed.

Lemma forallb_repeat {A : Type} (f : A -> bool) x n :
  f x = true -> forallb f (repeat x n) = true.
Proof. intros Hx. induction n as [|n IH]; simpl; [done|]. by rewrite Hx. Qed.

Lemma strip_ones n : strip (repeat 49%N n) = repeat 49%N n.
Proof.
  assert (lstrip (repeat 49%N n) = repeat 49%N n) as Hl by (by destruct n).
  unfold strip, rstrip. by rewrite Hl, rev_repeat_same, Hl, rev_repeat_same.
Qed.

Lemma clean_response_ones n :
  clean_response (repeat 49%N n) = repeat 49%N n.
Proof.
  apply clean_response_plain; [apply strip_ones|by destruct n|].
  unfold endswith. rewrite rev_repeat_same. by destruct n.
Qed.

Lemma parse_json_long_integer n :
  (4300 < n)%nat ->
  json_loads_literals (strip (clean_response (repeat 49%N n)))
    = LoadsRaised ValueError /\
  _parse_json json_loads_literals (repeat 49%N n) = Raise ValueError.
Proof.
  intros Hn.
  assert (json_loads_literals (repeat 49%N n) = LoadsRaised ValueError) as H.
  { unfold json_loads_literals.
    destruct n as [|[|m]]; [lia|lia|].
    rewrite !decide_False by (by vm_compute).
    assert (integer_literal (repeat 49%N (S (S m))) = true) as ->.
    { change (integer_literal (repeat 49%N (S (S m))))
        with (forallb is_digit (repeat 49%N (S (S m)))).
      by apply forallb_repeat. }
    rewrite repeat_length.
    by destruct (Nat.ltb_spec 4300 (S (S m))); [|lia]. }
  unfold _parse_json. rewrite clean_response_ones, strip_ones, H. done.
Qed.

Lemma parse_json_fallback_witness :
  json_loads_literals (strip (clean_response (lit "{oops"))) = JSONDecodeError
  /\
  _parse_json json_loads_literals (lit "{oops") =
    Ok (JDict [(lit "raw_response", JStr (lit "{oops"))]).
Proof.
  split; [reflexivity|].
  apply (parse_json_fallback json_loads_literals (lit "{oops")); reflexivity.
Defined.

(** C2 as stated fails twice over.  On a fenced reply that does not
    decode, the text embedded under [raw_response] is the reply with its
    fences cut off, not the reply itself.  And on a reply of 5000 digits
    decoding fails with a [ValueError] that is not a [JSONDecodeError], so
    [_parse_json] raises instead of returning the fallback. *)
Lemma parse_json_fallback_is_not_the_input :
  let response := lit "```json{oops```" in
  let digits := repeat 49%N 5000 in
  (json_loads_literals (strip (clean_response response)) = JSONDecodeError /\
   _parse_json json_loads_literals response =
     Ok (JDict [(lit "raw_response", JStr (lit "{oops"))]) /\
   _parse_json json_loads_literals response <>
     Ok (JDict [(lit "raw_response", JStr response)])) /\
  (json_loads_literals (strip (clean_response digits))
     = LoadsRaised ValueError /\
   _parse_json json_loads_literals digits = Raise ValueError).
Proof.
  split.
  - split; [reflexivity|]. split; [reflexivity|]. discriminate.
  - apply (parse_json_long_integer 5000). lia.
Qed.

(** ** The retry decorator *)

Section RetryFacts.
Import Retry.
Context {V E B : Type}.
Variable max_retries : Z.
Variable base_delay : Q.
Variable float_delay : bool.
Variable sleep_max : Q.
Variable func : nat -> outcome V E B.

Local Abbreviation attempts :=
  (attempts max_retries base_delay float_delay sleep_max func).
Local Abbreviation wrapper :=
  (wrapper max_retries base_delay float_delay sleep_max func).
Local Abbreviation delay_of := (delay_of base_delay).
Local Abbreviation delay_overflows := (delay_overflows float_delay).
Local Abbreviation sleep_accepts := (sleep_accepts sleep_max).

(** One unfolding of the loop, case by case. *)
Lemma attempts_returns n a last v :
  func a = Returns v -> attempts (S n) a last = (Returned v, [Invoke a]).
Proof. intros H. simpl. by rewrite H. Qed.

Lemma attempts_escapes n a last b :
  func a = RaisesOther b -> attempts (S n) a last = (Escaped b, [Invoke a]).
Proof. intros H. simpl. by rewrite H. Qed.

Lemma attempts_delay_overflow n a last e :
  func a = RaisesException e ->
  (Z.of_nat a < max_retries - 1)%Z ->
  delay_overflows a = true ->
  attempts (S n) a last = (DelayOverflow, [Invoke a]).
Proof.
  intros H Hlt Ho. simpl. rewrite H.
  destruct (Z.ltb_spec (Z.of_nat a) (max_retries - 1)); [|lia].
  by rewrite Ho.
Qed.

Lemma attempts_retries n a last e :
  func a = RaisesException e ->
  (Z.of_nat a < max_retries - 1)%Z ->
  delay_overflows a = false ->
  sleep_accepts (delay_of a) = true ->
  attempts (S n) a last =
    ((attempts n (S a) (Some e)).1,
     Invoke a :: Sleep (delay_of a) :: (attempts n (S a) (Some e)).2).
Proof.
  intros H Hlt Ho Hd. simpl. rewrite H.
  destruct (Z.ltb_spec (Z.of_nat a) (max_retries - 1)); [|lia].
  by rewrite Ho, Hd.
Qed.

Lemma attempts_sleep_refused n a last e :
  func a = RaisesException e ->
  (Z.of_nat a < max_retries - 1)%Z ->
  delay_overflows a = false ->
  sleep_accepts (delay_of a) = false ->
  attempts (S n) a last = (SleepRefused (delay_of a), [Invoke a]).
Proof.
  intros H Hlt Ho Hd. simpl. rewrite H.
  destruct (Z.ltb_spec (Z.of_nat a) (max_retries - 1)); [|lia].
  by rewrite Ho, Hd.
Qed.

Lemma attempts_last n a last e :
  func a = RaisesException e ->
  (max_retries - 1 <= Z.of_nat a)%Z ->
  attempts (S n) a last =
    ((attempts n (S a) (Some e)).1, Invoke a :: (attempts n (S a) (Some e)).2).
Proof.
  intros H Hge. simpl. rewrite H.
  by destruct (Z.ltb_spec (Z.of_nat a) (max_retries - 1)); [lia|].
Qed.

Local Arguments Retry.attempts : simpl never.

(** Case analysis on one iteration, leaving the rewritten goal. *)
Ltac iteration n a last :=
  let Hf := fresh "Hfunc" in
  let Hlt := fresh "Hlt" in
  let Ho := fresh "Hover" in
  let Hd := fresh "Hdelay" in
  destruct (func a) as [?v|?e|?b] eqn:Hf;
  [ rewrite (attempts_returns n a last _ Hf)
  | destruct (Z.lt_ge_cases (Z.of_nat a) (max_retries - 1)) as [Hlt|Hlt];
    [ destruct (delay_overflows a) eqn:Ho;
      [ rewrite (attempts_delay_overflow n a last _ Hf Hlt Ho)
      | destruct (sleep_accepts (delay_of a)) eqn:Hd;
        [ rewrite (attempts_retries n a last _ Hf Hlt Ho Hd)
        | rewrite (attempts_sleep_refused n a last _ Hf Hlt Ho Hd) ] ]
    | rewrite (attempts_last n a last _ Hf Hlt) ]
  | rewrite (attempts_escapes n a last _ Hf) ].

(** The invocations made are those of consecutive attempts, and every
    loop that runs at all starts with one. *)
Lemma attempts_invocations n a last :
  exists m, (m <= n)%nat /\ ((1 <= n)%nat -> (1 <= m)%nat) /\
            invocations (attempts n a last).2 = seq a m.
Proof.
  revert a last. induction n as [|n IH]; intros a last.
  - exists 0%nat. simpl. repeat split; lia.
  - iteration n a last; simpl;
      try (exists 1%nat; simpl; repeat split; lia).
    + destruct (IH (S a) (Some e)) as (m & Hm & _ & ->).
      exists (S m). simpl. repeat split; lia.
    + destruct (IH (S a) (Some e)) as (m & Hm & _ & ->).
      exists (S m). simpl. repeat split; lia.
Qed.

Lemma attempts_head n a last :
  exists rest, (attempts (S n) a last).2 = Invoke a :: rest.
Proof. iteration n a last; simpl; eauto. Qed.

(** An invocation that returns normally is the last event, and its value
    is the wrapper's. *)
Lemma attempts_return_ends n a last k v :
  In k (invocations (attempts n a last).2) ->
  func k = Returns v ->
  (attempts n a last).1 = Returned v /\
  exists pre, (attempts n a last).2 = pre ++ [Invoke k].
Proof.
  revert a last. induction n as [|n IH]; intros a last; [done|].
  iteration n a last; simpl.
  - intros [->|[]] Hk. split; [congruence|]. by exists [].
  - intros [->|[]] Hk. congruence.
  - intros [->|Hin] Hk; [congruence|].
    destruct (IH _ _ Hin Hk) as [Hr [pre Hpre]]. split; [done|].
    exists (Invoke a :: Sleep (delay_of a) :: pre). by rewrite Hpre.
  - intros [->|[]] Hk. congruence.
  - intros [->|Hin] Hk; [congruence|].
    destruct (IH _ _ Hin Hk) as [Hr [pre Hpre]]. split; [done|].
    exists (Invoke a :: pre). by rewrite Hpre.
  - intros [->|[]] Hk. congruence.
Qed.

(** Between two consecutive invocations lies exactly the sleep of the
    earlier attempt. *)
Lemma attempts_sleep_between n a last i :
  (a + n = Z.to_nat max_retries)%nat ->
  (a <= i)%nat ->
  In (S i) (invocations (attempts n a last).2) ->
  exists pre post,
    (attempts n a last).2 =
      pre ++ Invoke i :: Sleep (delay_of i) :: Invoke (S i) :: post.
Proof.
  revert a last. induction n as [|n IH]; intros a last Hn Hai; [done|].
  iteration n a last; simpl.
  - intros [->|[]]. lia.
  - intros [->|[]]. lia.
  - intros [->|Hin]; [lia|].
    destruct (decide (a = i)) as [->|Hne].
    + destruct n as [|n]; [done|].
      destruct (attempts_head n (S i) (Some e)) as [rest Hrest].
      exists [], rest. simpl. by rewrite Hrest.
    + destruct (IH (S a) (Some e)) as (pre & post & Hpre); [lia|lia|done|].
      exists (Invoke a :: Sleep (delay_of a) :: pre), post.
      by rewrite Hpre.
  - intros [->|[]]. lia.
  - intros [->|Hin]; [lia|].
    assert (n = 0)%nat as -> by lia. done.
  - intros [->|[]]. lia.
Qed.

(** When every iteration of the loop has made its invocation, the last
    one decides the result. *)
Lemma attempts_exhausted n a last :
  (a + S n = Z.to_nat max_retries)%nat ->
  length (invocations (attempts (S n) a last).2) = S n ->
  match func (a + n) with
  | Returns v => (attempts (S n) a last).1 = Returned v
  | RaisesException e => (attempts (S n) a last).1 = Reraised e
  | RaisesOther b => (attempts (S n) a last).1 = Escaped b
  end.
Proof.
  revert a last. induction n as [|n IH]; intros a last Hn.
  - rewrite Nat.add_0_r. iteration 0%nat a last; simpl; try done;
      intros _; exfalso; lia.
  - replace (a + S n)%nat with (S a + n)%nat by lia.
    iteration (S n) a last; simpl; try done.
    + intros Hlen. apply (IH (S a) (Some e)); lia.
    + intros _. exfalso. lia.
Qed.

(** A delay is accepted exactly when it lies between 0 and the bound of
    [time.sleep]. *)
Lemma sleep_accepts_spec delay :
  sleep_accepts delay = true <-> (0 <= delay)%Q /\ (delay <= sleep_max)%Q.
Proof.
  unfold Retry.sleep_accepts. by rewrite andb_true_iff, !Qle_bool_iff.
Qed.

(** When every pause before a further attempt goes through, a function
    that keeps raising is invoked in every attempt. *)
Lemma attempts_all_raise n a last :
  (a + n = Z.to_nat max_retries)%nat ->
  (forall k, (Z.of_nat k < max_retries - 1)%Z ->
             delay_overflows k = false /\ sleep_accepts (delay_of k) = true) ->
  (forall k, (k < a + n)%nat -> exists e, func k = RaisesException e) ->
  invocations (attempts n a last).2 = seq a n.
Proof.
  revert a last. induction n as [|n IH]; intros a last Hn Hb Hall; [done|].
  destruct (Hall a) as [e0 He0]; [lia|].
  iteration n a last; try congruence.
  - destruct (Hb a Hlt). congruence.
  - simpl. f_equal. apply IH; [lia|done|].
    intros k Hk. apply Hall. lia.
  - destruct (Hb a Hlt). congruence.
  - simpl. f_equal. apply IH; [lia|done|].
    intros k Hk. apply Hall. lia.
Qed.

(** The wrapper ends in an exception of the pause only after an
    invocation that raised an [Exception] and that was not the last one
    due, and only on a delay that cannot be computed or slept. *)
Lemma attempts_pause_fails n a last :
  ((attempts n a last).1 = DelayOverflow ->
   exists i e, (a <= i)%nat /\ (Z.of_nat i < max_retries - 1)%Z /\
     func i = RaisesException e /\ delay_overflows i = true /\
     invocations (attempts n a last).2 = seq a (S i - a)) /\
  (forall delay, (attempts n a last).1 = SleepRefused delay ->
   exists i e, (a <= i)%nat /\ (Z.of_nat i < max_retries - 1)%Z /\
     func i = RaisesException e /\ delay = delay_of i /\
     sleep_accepts delay = false /\
     invocations (attempts n a last).2 = seq a (S i - a)).
Proof.
  revert a last. induction n as [|n IH]; intros a last.
  { simpl. split; [|intros delay]; by destruct last. }
  iteration n a last; simpl; try (split; [|intros delay]; done).
  - split; [intros _|done]. exists a, e.
    replace (S a - a)%nat with 1%nat by lia. repeat split; (done || lia).
  - destruct (IH (S a) (Some e)) as [Ho Hs]. split.
    + intros H. destruct (Ho H) as (i & e' & Hi & Hlti & Hf & Hov & Hseq).
      exists i, e'. rewrite Hseq.
      replace (S i - a)%nat with (S (S i - S a)) by lia.
      repeat split; (done || lia).
    + intros delay H.
      destruct (Hs delay H) as (i & e' & Hi & Hlti & Hf & Hd & Hacc & Hseq).
      exists i, e'. rewrite Hseq.
      replace (S i - a)%nat with (S (S i - S a)) by lia.
      repeat split; (done || lia).
  - split; [done|]. intros delay [= <-]. exists a, e.
    replace (S a - a)%nat with 1%nat by lia. repeat split; (done || lia).
  - destruct (IH (S a) (Some e)) as [Ho Hs]. split.
    + intros H. destruct (Ho H) as (i & e' & Hi & Hlti & Hf & Hov & Hseq).
      exfalso. lia.
    + intros delay H.
      destruct (Hs delay H) as (i & e' & Hi & Hlti & Hf & Hd & Hacc & Hseq).
      exfalso. lia.
Qed.

(** The final [raise] finds [last_exception] unset only if the loop body
    never ran. *)
Lemma attempts_raise_none n a last :
  (attempts n a last).1 = RaisedNone -> n = 0%nat /\ last = None.
Proof.
  revert a last. induction n as [|n IH]; intros a last.
  - simpl. by destruct last.
  - iteration n a last; simpl; try done.
    + intros H. by destruct (IH _ _ H).
    + intros H. by destruct (IH _ _ H).
Qed.


(** C10. With [max_retries <= 0] the wrapper makes no invocation (and no
    sleep) and ends in [raise last_exception] with [last_exception]
    still [None]; with [max_retries >= 1] it never ends that way. *)
Theorem raise_none_without_attempt :
  ((max_retries <= 0)%Z -> wrapper = (RaisedNone, [])) /\
  ((1 <= max_retries)%Z -> wrapper.1 <> RaisedNone).
Proof.
  unfold Retry.wrapper. split; intros Hmax.
  - by replace (Z.to_nat max_retries) with 0%nat by lia.
  - intros H. apply attempts_raise_none in H as [H _]. lia.
Qed.
End RetryFacts.


Lemma raise_none_without_attempt_witness :
  (0 <= 0)%Z /\
  Retry.wrapper (V := nat) (E := nat) (B := Empty_set) 0 2 true
    cpython_sleep_max (fun _ => Retry.Returns 7%nat) = (Retry.RaisedNone, []).
Proof.
  split; [lia|].
  apply (raise_none_without_attempt 0 2 true cpython_sleep_max
           (fun _ => Retry.Returns 7%nat)).
  lia.
Defined.

(** ** The profile selector *)

Section SuggestFacts.
Import ProfileManager.
Implicit Types (scores : list (str * Z)) (table : list (str * list str)).

Lemma dict_keys_set_present {V : Type} k (v : V) (d : list (str * V)) :
  In k (dict_keys d) -> dict_keys (dict_set k v d) = dict_keys d.
Proof.
  induction d as [|[k0 v0] d IH]; simpl; [done|].
  destruct (decide (k0 = k)) as [->|Hne]; simpl; [done|].
  intros [?|Hin]; [done|]. f_equal. by apply IH.
Qed.

(** [scores[profile] += 1] on a profile that has a score. *)
Lemma increment_spec profile scores :
  In profile (dict_keys scores) ->
  dict_keys (increment profile scores) = dict_keys scores /\
  forall q, score_of (increment profile scores) q =
            (score_of scores q + if decide (q = profile) then 1 else 0)%Z.
Proof.
  intros Hin. unfold increment.
  destruct (dict_get_is_Some _ _ Hin) as [n Hn]. rewrite Hn.
  split; [by apply dict_keys_set_present|].
  intros q. unfold score_of. destruct (decide (q = profile)) as [->|Hne].
  - by rewrite dict_get_set_same, Hn.
  - rewrite dict_get_set_other by done. lia.
Qed.

(** The inner loop adds to the profile's score the number of its
    keywords found in the text, each keyword of the list once. *)
Lemma count_keywords_spec text profile keywords scores :
  In profile (dict_keys scores) ->
  dict_keys (count_keywords text profile keywords scores) = dict_keys scores /\
  forall q, score_of (count_keywords text profile keywords scores) q =
            (score_of scores q +
             if decide (q = profile)
             then Z.of_nat (matching_keywords text keywords) else 0)%Z.
Proof.
  revert scores. induction keywords as [|kw kws IH]; intros scores Hin; simpl.
  - split; [done|]. intros q. unfold matching_keywords.
    destruct (decide (q = profile)); simpl; lia.
  - unfold matching_keywords. simpl.
    destruct (contains text kw) eqn:Hkw.
    + destruct (increment_spec profile scores Hin) as [Hkeys Hscore].
      destruct (IH (increment profile scores)) as [Hkeys' Hscore'];
        [by rewrite Hkeys|].
      split; [congruence|]. intros q. rewrite Hscore', Hscore.
      unfold matching_keywords.
      destruct (decide (q = profile)); simpl length; lia.
    + destruct (IH scores Hin) as [Hkeys' Hscore']. split; [done|].
      intros q. rewrite Hscore'. done.
Qed.

(** The outer loop, for a table without repeated profiles all of which
    have a score. *)
Lemma count_profiles_spec text table scores :
  dict_wf table ->
  (forall profile, In profile (dict_keys table) ->
                   In profile (dict_keys scores)) ->
  dict_keys (count_profiles text table scores) = dict_keys scores /\
  forall q, score_of (count_profiles text table scores) q =
            (score_of scores q + hits_in text table q)%Z.
Proof.
  unfold dict_wf, hits_in.
  revert scores. induction table as [|[p kws] table IH]; intros scores Hwf Hsub.
  - simpl. split; [done|]. intros q. lia.
  - apply NoDup_cons in Hwf as [Hnotin Hwf].
    rewrite list_elem_of_In in Hnotin. simpl.
    destruct (count_keywords_spec text p kws scores) as [Hkeys Hscore].
    { apply Hsub. simpl. by left. }
    destruct (IH (count_keywords text p kws scores) Hwf) as [Hkeys' Hscore'].
    { intros profile Hprofile. rewrite Hkeys. apply Hsub. simpl. by right. }
    split; [congruence|]. intros q. rewrite Hscore', Hscore.
    destruct (decide (p = q)) as [->|Hne].
    + rewrite decide_True by done.
      rewrite (dict_get_None_notin q table Hnotin). lia.
    + rewrite decide_False by done. lia.
Qed.

Lemma initial_scores_spec table :
  dict_keys (initial_scores table) = dict_keys table /\
  forall q, score_of (initial_scores table) q = 0%Z.
Proof.
  unfold initial_scores, score_of. induction table as [|[p kws] table [IHk IHs]].
  - done.
  - simpl. split; [by f_equal|]. intros q.
    destruct (decide (p = q)); [done|apply IHs].
Qed.

Lemma keyword_map_wf : dict_wf keyword_map.
Proof. apply (bool_decide_unpack _). by vm_compute. Qed.

(** No keyword is listed twice for a profile, so a count of matching
    list entries is a count of matching keywords. *)
Lemma keyword_lists_nodup :
  Forall (fun entry => NoDup entry.2) keyword_map.
Proof. apply (bool_decide_unpack _). by vm_compute. Qed.

Lemma matching_keywords_pos text keywords keyword :
  In keyword keywords -> contains text keyword = true ->
  (1 <= matching_keywords text keywords)%nat.
Proof.
  intros Hin Hc. unfold matching_keywords.
  assert (In keyword (List.filter (contains text) keywords)) as Hf
    by (apply filter_In; done).
  destruct (List.filter (contains text) keywords); [done|simpl; lia].
Qed.

Lemma matching_keywords_zero text keywords :
  (forall keyword, In keyword keywords -> contains text keyword = false) ->
  matching_keywords text keywords = 0%nat.
Proof.
  intros Hall. unfold matching_keywords.
  induction keywords as [|kw kws IH]; simpl; [done|].
  rewrite (Hall kw) by (simpl; auto). apply IH.
  intros keyword Hin. apply Hall. simpl. auto.
Qed.

Variable lower : str -> str.

Lemma scores_for_spec description :
  dict_keys (scores_for lower description) = dict_keys keyword_map /\
  forall q, score_of (scores_for lower description) q =
            hits_in (lower description) keyword_map q.
Proof.
  unfold scores_for.
  destruct (initial_scores_spec keyword_map) as [Hk0 Hs0].
  destruct (count_profiles_spec (lower description) keyword_map
              (initial_scores keyword_map) keyword_map_wf) as [Hk Hs].
  { intros profile. by rewrite Hk0. }
  split; [congruence|]. intros q. rewrite Hs, Hs0. lia.
Qed.

(** C5. [suggest_profile] returns a profile of the keyword table.  If
    some keyword of the table occurs in the lowercased description, no
    profile has more matching keywords than the returned one; if none
    occurs, the returned profile is [web_app]. *)
Theorem suggest_profile_spec description :
  exists best keywords,
    suggest_profile lower description = Ok best /\
    In (best, keywords) keyword_map /\
    ((exists profile kws keyword,
         In (profile, kws) keyword_map /\ In keyword kws /\
         contains (lower description) keyword = true) ->
     forall profile kws,
       In (profile, kws) keyword_map ->
       (matching_keywords (lower description) kws <=
        matching_keywords (lower description) keywords)%nat) /\
    ((forall profile kws keyword,
         In (profile, kws) keyword_map -> In keyword kws ->
         contains (lower description) keyword = false) ->
     best = lit "web_app").
Proof.
  destruct (scores_for_spec description) as [Hkeys Hscore].
  unfold suggest_profile. rewrite Hkeys.
  set (scores := scores_for lower description) in *.
  set (text := lower description) in *.
  assert (forall p kws, In (p, kws) keyword_map ->
            score_of scores p = Z.of_nat (matching_keywords text kws)) as Hhit.
  { intros p kws Hin. rewrite Hscore. unfold hits_in.
    by rewrite (dict_get_of_In p kws keyword_map keyword_map_wf Hin). }
  destruct (dict_keys keyword_map) as [|k0 ks] eqn:Hk; [done|].
  pose proof (py_max_from_In (score_of scores) k0 ks) as Hbest.
  pose proof (py_max_from_ge (score_of scores) k0 ks) as Hmax.
  rewrite <- Hk in Hbest, Hmax. simpl.
  set (best := py_max_from (score_of scores) k0 ks) in *.
  destruct (dict_get_is_Some _ _ Hbest) as [bkws Hbkws].
  apply dict_get_Some_In in Hbkws.
  assert (forall p kws, In (p, kws) keyword_map ->
            (matching_keywords text kws <= matching_keywords text bkws)%nat)
    as Hle.
  { intros p kws Hin.
    assert (score_of scores p <= score_of scores best)%Z as H.
    { apply Hmax. apply (in_map fst) in Hin. exact Hin. }
    rewrite (Hhit p kws Hin), (Hhit best bkws Hbkws) in H. lia. }
  destruct (Z.gtb_spec (score_of scores best) 0) as [Hpos|Hzero].
  - exists best, bkws. split; [done|]. split; [done|]. split; [by intros _|].
    intros Hnone. exfalso.
    rewrite (Hhit best bkws Hbkws) in Hpos.
    rewrite (matching_keywords_zero text bkws) in Hpos; [lia|].
    intros keyword Hkw. by apply (Hnone best bkws).
  - assert (In (lit "web_app") (dict_keys keyword_map)) as Hweb
      by (vm_compute; tauto).
    destruct (dict_get_is_Some _ _ Hweb) as [wkws Hwkws].
    apply dict_get_Some_In in Hwkws.
    exists (lit "web_app"), wkws. split; [done|]. split; [done|].
    split; [|done].
    intros (p & kws & keyword & Hin & Hkw & Hc). exfalso.
    pose proof (matching_keywords_pos text kws keyword Hkw Hc) as H1.
    pose proof (Hle p kws Hin) as H2.
    rewrite (Hhit best bkws Hbkws) in Hzero. lia.
Qed.
End SuggestFacts.

(** C5 on a description that names an API server and machine learning:
    three keywords of [api_backend] occur, and the profile returned has at
    least as many matches as any other. *)
Lemma suggest_profile_spec_witness :
  let text := ascii_lower (lit "Build a REST API server with ML") in
  (exists profile kws keyword,
      In (profile, kws) ProfileManager.keyword_map /\ In keyword kws /\
      contains text keyword = true) /\
  exists best keywords,
    ProfileManager.suggest_profile ascii_lower
      (lit "Build a REST API server with ML") = Ok best /\
    forall profile kws,
      In (profile, kws) ProfileManager.keyword_map ->
      (ProfileManager.matching_keywords text kws <=
       ProfileManager.matching_keywords text keywords)%nat.
Proof.
  assert (exists profile kws keyword,
      In (profile, kws) ProfileManager.keyword_map /\ In keyword kws /\
      contains (ascii_lower (lit "Build a REST API server with ML")) keyword
        = true) as Hocc.
  { exists (lit "ml_project"),
      (List.map lit ["machine learning"; "ml"; "ai model"; "training";
                     "prediction"; "neural"; "deep learning"]%string),
      (lit "ml").
    split; [by left|]. split; [right; by left|reflexivity]. }
  split; [exact Hocc|].
  destruct (suggest_profile_spec ascii_lower
              (lit "Build a REST API server with ML"))
    as (best & keywords & Heq & _ & Hmax & _).
  exists best, keywords. split; [exact Heq|]. exact (Hmax Hocc).
Defined.

(** ** The validation report *)

Section ValidationFacts.
Import Validation.
Implicit Types (r : ValidationReport) (x : ValidationResult).

Lemma count_status_app s rs1 rs2 :
  count_status s (rs1 ++ rs2) = (count_status s rs1 + count_status s rs2)%Z.
Proof. unfold count_status. rewrite List.filter_app, length_app. lia. Qed.

Lemma count_other_app rs1 rs2 :
  count_other (rs1 ++ rs2) = (count_other rs1 + count_other rs2)%Z.
Proof. unfold count_other. rewrite List.filter_app, length_app. lia. Qed.

(** Outside [PASSED], [FAILED] and [WARNING] there is only [SKIPPED]. *)
Lemma count_other_skipped rs : count_other rs = count_status SKIPPED rs.
Proof.
  unfold count_other, count_status. do 2 f_equal.
  apply List.filter_ext. intros x. by destruct (status x).
Qed.

(** One [add_result]: the result is appended and exactly the counter of
    its status goes up by one. *)
Lemma add_result_spec r x :
  results (add_result r x) = results r ++ [x] /\
  project_dir (add_result r x) = project_dir r /\
  passed (add_result r x) = (passed r + count_status PASSED [x])%Z /\
  failed (add_result r x) = (failed r + count_status FAILED [x])%Z /\
  warnings (add_result r x) = (warnings r + count_status WARNING [x])%Z /\
  skipped (add_result r x) = (skipped r + count_other [x])%Z.
Proof.
  unfold add_result, count_status, count_other.
  destruct (status x) eqn:Hs; simpl; rewrite Hs; simpl; repeat split; lia.
Qed.

Lemma add_results_spec r rs :
  results (add_results r rs) = results r ++ rs /\
  passed (add_results r rs) = (passed r + count_status PASSED rs)%Z /\
  failed (add_results r rs) = (failed r + count_status FAILED rs)%Z /\
  warnings (add_results r rs) = (warnings r + count_status WARNING rs)%Z /\
  skipped (add_results r rs) = (skipped r + count_other rs)%Z.
Proof.
  unfold add_results. revert r.
  induction rs as [|x rs IH]; intros r.
  - simpl. rewrite app_nil_r. unfold count_status, count_other. simpl.
    repeat split; lia.
  - simpl. destruct (IH (add_result r x)) as (Hr & Hp & Hf & Hw & Hs).
    destruct (add_result_spec r x) as (Hr1 & _ & Hp1 & Hf1 & Hw1 & Hs1).
    rewrite Hr, Hp, Hf, Hw, Hs, Hr1, Hp1, Hf1, Hw1, Hs1.
    change (x :: rs) with ([x] ++ rs).
    rewrite !count_status_app, count_other_app, <- app_assoc.
    repeat split; lia.
Qed.

Lemma count_partition rs :
  (count_status PASSED rs + count_status FAILED rs +
   count_status WARNING rs + count_other rs)%Z = Z.of_nat (length rs).
Proof.
  induction rs as [|x rs IH]; [done|].
  change (x :: rs) with ([x] ++ rs).
  rewrite !count_status_app, count_other_app, length_app, Nat2Z.inj_add, <- IH.
  unfold count_status, count_other. simpl.
  destruct (status x); simpl; lia.
Qed.

(** C9. After any sequence of [add_result] calls on a fresh report, the
    four counters add up to the number of stored results, and each
    counter is the number of stored results of its status, [skipped]
    taking every status other than [PASSED], [FAILED] and [WARNING]. *)
Theorem counters_match_results dir rs :
  let r := add_results (fresh dir) rs in
  results r = rs /\
  (passed r + failed r + warnings r + skipped r)%Z
    = Z.of_nat (length (results r)) /\
  passed r = count_status PASSED (results r) /\
  failed r = count_status FAILED (results r) /\
  warnings r = count_status WARNING (results r) /\
  skipped r = count_other (results r) /\
  skipped r = count_status SKIPPED (results r).
Proof.
  intros r. subst r.
  destruct (add_results_spec (fresh dir) rs) as (Hr & Hp & Hf & Hw & Hs).
  simpl in Hr, Hp, Hf, Hw, Hs. rewrite Hr, Hp, Hf, Hw, Hs.
  pose proof (count_partition rs). rewrite <- count_other_skipped.
  repeat split; lia.
Qed.

Lemma ratio_bounds (p t : Z) :
  (0 <= p)%Z -> (p <= t)%Z -> (0 < t)%Z ->
  (0 <= inject_Z p / inject_Z t * 100)%Q /\
  (inject_Z p / inject_Z t * 100 <= 100)%Q.
Proof.
  intros Hp Hpt Ht.
  assert (0 < inject_Z t)%Q as Htq
    by (change 0%Q with (inject_Z 0); by rewrite <- Zlt_Qlt).
  assert (0 <= inject_Z p / inject_Z t)%Q as H0.
  { apply Qle_shift_div_l; [done|]. rewrite Qmult_0_l.
    change 0%Q with (inject_Z 0). by rewrite <- Zle_Qle. }
  assert (inject_Z p / inject_Z t <= 1)%Q as H1.
  { apply Qle_shift_div_r; [done|]. rewrite Qmult_1_l. by rewrite <- Zle_Qle. }
  split.
  - apply Qmult_le_0_compat; [done|]. by compute.
  - apply (Qle_trans _ (1 * 100)%Q); [|by compute].
    apply Qmult_le_compat_r; [done|]. by compute.
Qed.

(** C6. For a report whose counters are counts (none negative), the
    score is [passed / (passed + failed + warnings) * 100] when that
    denominator is positive and 100 when it is zero; it lies in
    [[0, 100]]; and it does not depend on [skipped] or on the stored
    results, so recording a skipped check leaves it as it was. *)
Theorem score_spec r :
  (0 <= passed r)%Z -> (0 <= failed r)%Z -> (0 <= warnings r)%Z ->
  let total := (passed r + failed r + warnings r)%Z in
  ((0 < total)%Z ->
     score r = (inject_Z (passed r) / inject_Z total * 100)%Q) /\
  (total = 0%Z -> score r = 100%Q) /\
  (0 <= score r)%Q /\ (score r <= 100)%Q /\
  (forall r', passed r' = passed r -> failed r' = failed r ->
              warnings r' = warnings r -> score r' = score r) /\
  (forall x, status x = SKIPPED -> score (add_result r x) = score r).
Proof.
  intros Hp Hf Hw total. unfold score. fold total.
  split; [|split; [|split; [|split; [|split]]]].
  - intros Hpos. by destruct (Z.eqb_spec total 0); [lia|].
  - intros ->. done.
  - destruct (Z.eqb_spec total 0); [by compute|].
    apply ratio_bounds; lia.
  - destruct (Z.eqb_spec total 0); [by compute|].
    apply ratio_bounds; lia.
  - intros r' -> -> ->. done.
  - intros x Hx. unfold add_result. rewrite Hx. simpl. done.
Qed.
End ValidationFacts.

(** C6 on the report of three checks, one passed, one failed and one
    skipped: the score is one half of a hundred. *)
Lemma score_spec_witness :
  let x s := Validation.Build_ValidationResult (lit "check") s
               Validation.STRUCTURE (lit "message") None (lit "error") in
  let r := Validation.add_results (Validation.fresh (lit "project"))
             [x Validation.PASSED; x Validation.FAILED; x Validation.SKIPPED] in
  (0 <= Validation.passed r)%Z /\ (0 <= Validation.failed r)%Z /\
  (0 <= Validation.warnings r)%Z /\
  (0 <= Validation.score r)%Q /\ (Validation.score r <= 100)%Q.
Proof.
  intros x r.
  assert (0 <= Validation.passed r)%Z as Hp by (vm_compute; discriminate).
  assert (0 <= Validation.failed r)%Z as Hf by (vm_compute; discriminate).
  assert (0 <= Validation.warnings r)%Z as Hw by (vm_compute; discriminate).
  split; [exact Hp|]. split; [exact Hf|]. split; [exact Hw|].
  destruct (score_spec r Hp Hf Hw) as (_ & _ & H0 & H100 & _).
  split; [exact H0|exact H100].
Defined.

(** ** The code-generation fan-out *)

Section CodeGenerationFacts.
Import Orchestrator.
Variable os_path_join : list str -> str.
Variable io_error : fs -> str -> str -> option exn.
Variable generate_code : str -> res json.
Variable project_dir : str.

Local Abbreviation write_file := (write_file io_error).
Local Abbreviation save_items := (save_items os_path_join io_error project_dir).
Local Abbreviation writes_items := (writes_items os_path_join project_dir).
Local Abbreviation writes_of := (writes_of os_path_join project_dir).
Local Abbreviation _save_code_files :=
  (_save_code_files os_path_join io_error project_dir).
Local Abbreviation collect_one :=
  (collect_one os_path_join io_error generate_code project_dir).
Local Abbreviation collect :=
  (collect os_path_join io_error generate_code project_dir).
Local Abbreviation contribution :=
  (contribution os_path_join io_error generate_code project_dir).
Local Abbreviation write_of_agents :=
  (write_of_agents os_path_join generate_code project_dir).

Lemma write_file_ok full_path content disk disk' :
  write_file full_path content disk = Ok disk' ->
  disk' = disk ++ [(full_path, content)].
Proof.
  unfold Orchestrator.write_file.
  destruct (io_error disk full_path content); congruence.
Qed.

(** The save loop either runs to its end, returning and writing what
    [created_items] and [writes_items] say, or stops at the first write
    that raises, with the earlier writes on disk. *)
Lemma save_items_spec subdirectory items created disk :
  save_items subdirectory items created disk =
    (Ok (created ++ created_items items),
     disk ++ writes_items subdirectory items) \/
  exists e before w after,
    writes_items subdirectory items = before ++ w :: after /\
    write_file w.1 w.2 (disk ++ before) = Raise e /\
    save_items subdirectory items created disk = (Raise e, disk ++ before).
Proof.
  revert created disk.
  induction items as [|[filepath content] items IH]; intros created disk; simpl.
  - left. by rewrite !app_nil_r.
  - destruct (writable content) as [text|]; [|apply IH].
    destruct (write_file _ _ disk) as [disk'|e] eqn:Hw.
    + apply write_file_ok in Hw as ->.
      destruct (IH (created ++ [filepath])
                  (disk ++ [(full_path_of os_path_join project_dir
                               subdirectory filepath, clean_content text)]))
        as [Hok|(e & before & w & after & Hsplit & Hraise & Hres)].
      * left. rewrite Hok, <- !app_assoc. done.
      * right.
        exists e, ((full_path_of os_path_join project_dir subdirectory
                      filepath, clean_content text) :: before), w, after.
        rewrite Hsplit, Hres. simpl.
        rewrite <- !app_assoc in *. done.
    + right.
      exists e, [], (full_path_of os_path_join project_dir subdirectory
                       filepath, clean_content text),
        (writes_items subdirectory items).
      simpl. rewrite app_nil_r. done.
Qed.

Lemma save_code_files_spec code_dict subdirectory disk :
  _save_code_files code_dict subdirectory disk =
    (Ok (created_files code_dict), disk ++ writes_of subdirectory code_dict) \/
  exists e before w after,
    writes_of subdirectory code_dict = before ++ w :: after /\
    write_file w.1 w.2 (disk ++ before) = Raise e /\
    _save_code_files code_dict subdirectory disk = (Raise e, disk ++ before).
Proof.
  destruct code_dict; simpl; try (left; by rewrite app_nil_r).
  apply (save_items_spec subdirectory d [] disk).
Qed.

Lemma contribution_mono agent_name subdirectory files disk more :
  contribution agent_name subdirectory files disk ->
  contribution agent_name subdirectory files (disk ++ more).
Proof.
  unfold Orchestrator.contribution.
  destruct (generate_code agent_name) as [code_dict|e]; [|done].
  intros [[Hfiles Hw]|Hfail]; [left|by right].
  split; [done|]. intros w Hin. apply in_or_app. left. auto.
Qed.

(** One agent: its entry is set, and whatever it wrote is its own. *)
Lemma collect_one_spec agent_name subdirectory results disk :
  exists files written,
    collect_one agent_name subdirectory results disk =
      (<[agent_name := files]> results, disk ++ written) /\
    contribution agent_name subdirectory files (disk ++ written) /\
    forall w, In w written ->
      exists code_dict,
        generate_code agent_name = Ok code_dict /\
        In w (writes_of subdirectory code_dict).
Proof.
  unfold Orchestrator.collect_one, Orchestrator.contribution.
  destruct (generate_code agent_name) as [code_dict|e].
  - destruct (save_code_files_spec code_dict subdirectory disk)
      as [Hok|(e & before & w & after & Hsplit & Hraise & Hres)].
    + rewrite Hok. exists (created_files code_dict), (writes_of subdirectory code_dict).
      split; [done|]. split.
      * left. split; [done|]. intros w Hin. apply in_or_app. by right.
      * intros w Hin. by exists code_dict.
    + rewrite Hres. exists [], before. split; [done|]. split.
      * right. split; [done|]. exists e, (disk ++ before), w.
        split; [|done]. rewrite Hsplit. apply in_or_app. right. by left.
      * intros w' Hin. exists code_dict. split; [done|].
        rewrite Hsplit. apply in_or_app. by left.
  - exists [], []. rewrite app_nil_r. split; [done|]. split; [done|].
    intros w [].
Qed.

(** The loop over the agents, for agents that are pairwise distinct. *)
Lemma collect_spec names results disk :
  NoDup names ->
  exists written,
    (collect (List.map (fun a => (a, subdirectory_of a)) names) results disk).2
      = disk ++ written /\
    (forall w, In w written -> write_of_agents names w) /\
    (forall a, ¬ In a names ->
       (collect (List.map (fun a => (a, subdirectory_of a)) names)
          results disk).1 !! a = results !! a) /\
    (forall a, In a names ->
       exists files,
         (collect (List.map (fun a => (a, subdirectory_of a)) names)
            results disk).1 !! a = Some files /\
         contribution a (subdirectory_of a) files (disk ++ written)).
Proof.
  revert results disk.
  induction names as [|name names IH]; intros results disk Hnodup.
  - exists []. simpl. rewrite app_nil_r. repeat split; try done.
  - apply NoDup_cons in Hnodup as [Hnotin Hnodup].
    rewrite list_elem_of_In in Hnotin. simpl.
    destruct (collect_one_spec name (subdirectory_of name) results disk)
      as (files & written1 & -> & Hcontrib & Hown).
    destruct (IH (<[name := files]> results) (disk ++ written1) Hnodup)
      as (written2 & Hdisk & Hwrites & Hother & Hmine).
    exists (written1 ++ written2). rewrite app_assoc.
    split; [done|]. split; [|split].
    + intros w Hin. apply in_app_or in Hin as [Hin|Hin].
      * destruct (Hown w Hin) as (code_dict & Hgen & Hw).
        exists name, code_dict. split; [by left|done].
      * destruct (Hwrites w Hin) as (a & code_dict & Ha & Hgen & Hw).
        exists a, code_dict. split; [by right|done].
    + intros a Ha. rewrite Hother by tauto.
      apply lookup_insert_ne. tauto.
    + intros a [<-|Ha].
      * exists files. split.
        -- rewrite (Hother name Hnotin). apply lookup_insert_eq.
        -- by apply contribution_mono.
      * apply Hmine, Ha.
Qed.

(** Every write of a code dict is the write of one of its entries that
    holds a text of more than ten code points. *)
Lemma writes_of_In subdirectory code_dict w :
  In w (writes_of subdirectory code_dict) ->
  exists items filepath text,
    code_dict = JDict items /\
    In (filepath, JStr text) items /\ (10 < length text)%nat /\
    w = (full_path_of os_path_join project_dir subdirectory filepath,
         clean_content text).
Proof.
  destruct code_dict as [| | | | | |items]; try done. simpl.
  intros Hin. exists items.
  induction items as [|[filepath content] items IH]; [done|]. simpl in Hin.
  destruct (writable content) as [text|] eqn:Hw.
  - destruct Hin as [<-|Hin].
    + exists filepath, text. unfold writable in Hw.
      destruct content as [| | | |s0| |]; try done.
      destruct (Nat.ltb_spec 10 (length s0)); [|done].
      injection Hw as ->. split; [done|]. split; [by left|]. done.
    + destruct (IH Hin) as (f & t & _ & Hin' & Hlen & ->).
      exists f, t. split; [done|]. split; [by right|]. done.
  - destruct (IH Hin) as (f & t & _ & Hin' & Hlen & ->).
    exists f, t. split; [done|]. split; [by right|]. done.
Qed.

Lemma sequential_plan_eq :
  sequential_plan =
    List.map (fun a => (a, subdirectory_of a)) [BackendAI; FrontendAI; DataAI].
Proof. reflexivity. Qed.

(** The fan-out for any [os.path.join].  Whatever order the three
    futures complete in, and in the
    sequential branch as well: the returned mapping has an entry for
    [FrontendAI], [BackendAI] and [DataAI] and for nothing else; an agent
    whose [generate_code] raises contributes [[]]; an agent whose code
    was generated and saved contributes the files saved, each written at
    [os.path.join(project_dir, subdirectory, filepath)] for that agent's
    own subdirectory, [10_Code/Frontend], [10_Code/Backend] and
    [10_Code/Backend/data] respectively (if one of its writes raises it
    contributes [[]]); and nothing is written that is not one of these
    agents' files. *)
Lemma fan_out_any_join parallel completed disk :
  completed ≡ₚ [FrontendAI; BackendAI; DataAI] ->
  let out := _parallel_code_generation os_path_join io_error generate_code
               project_dir parallel completed disk in
  (forall a, is_Some (out.1 !! a) <-> In a [FrontendAI; BackendAI; DataAI]) /\
  (forall a, In a [FrontendAI; BackendAI; DataAI] ->
     exists files,
       out.1 !! a = Some files /\
       contribution a (subdirectory_of a) files out.2) /\
  (exists written,
      out.2 = disk ++ written /\
      forall w, In w written ->
                write_of_agents [FrontendAI; BackendAI; DataAI] w) /\
  subdirectory_of FrontendAI = lit "10_Code/Frontend" /\
  subdirectory_of BackendAI = lit "10_Code/Backend" /\
  subdirectory_of DataAI = lit "10_Code/Backend/data".
Proof.
  intros Hperm out.
  assert (exists names,
             names ≡ₚ [FrontendAI; BackendAI; DataAI] /\
             out = collect (List.map (fun a => (a, subdirectory_of a)) names)
                     ∅ disk) as (names & Hnames & ->).
  { subst out. unfold _parallel_code_generation. destruct parallel.
    - by exists completed.
    - exists [BackendAI; FrontendAI; DataAI]. split; [|done].
      apply Permutation_swap. }
  assert (NoDup names) as Hnodup.
  { rewrite Hnames. apply (bool_decide_unpack _). by vm_compute. }
  assert (forall a, In a names <-> In a [FrontendAI; BackendAI; DataAI]) as Hmem.
  { intros a. rewrite <- !list_elem_of_In. by rewrite Hnames. }
  destruct (collect_spec names ∅ disk Hnodup)
    as (written & Hdisk & Hwrites & Hother & Hmine).
  split; [|split; [|split; [|done]]].
  - intros a. split.
    + intros Hsome. apply Hmem.
      destruct (decide (a ∈ names)) as [Hin|Hnotin];
        rewrite list_elem_of_In in *; [done|].
      rewrite (Hother a Hnotin), lookup_empty in Hsome.
      by destruct Hsome.
    + intros Ha. apply Hmem in Ha. destruct (Hmine a Ha) as (files & -> & _).
      done.
  - intros a Ha. apply Hmem in Ha. destruct (Hmine a Ha) as (files & Hf & Hc).
    exists files. rewrite Hdisk. done.
  - exists written. split; [done|]. intros w Hw.
    destruct (Hwrites w Hw) as (a & code_dict & Ha & Hgen & Hin).
    exists a, code_dict. split; [by apply Hmem|done].
Qed.
End CodeGenerationFacts.

(** ** Where the fan-out writes, with [posixpath.join] *)

Section JoinedPaths.
Lemma startswith_prefix p s : startswith (p ++ s) p = true.
Proof.
  induction p as [|c p IH]; simpl; [by destruct s|].
  rewrite N.eqb_refl. exact IH.
Qed.

Lemma startswith_app_l a b p :
  (length p <= length a)%nat -> startswith (a ++ b) p = startswith a p.
Proof.
  revert a. induction p as [|c p IH]; intros a Hlen; simpl.
  { by destruct a, b. }
  destruct a as [|d a]; simpl in *; [lia|].
  rewrite IH by lia. done.
Qed.

Lemma endswith_app_r a b p :
  (length p <= length b)%nat -> endswith (a ++ b) p = endswith b p.
Proof.
  intros Hlen. unfold endswith. rewrite rev_app_distr.
  apply startswith_app_l. by rewrite !length_rev.
Qed.

(** Joining a relative path onto a directory that is not empty and does
    not end in a slash puts a slash between the two. *)
Lemma posix_join2_relative base filepath :
  base <> [] -> endswith base (lit "/") = false ->
  startswith filepath (lit "/") = false ->
  posix_join2 base filepath = base ++ lit "/" ++ filepath.
Proof.
  intros Hne Hend Hrel. unfold posix_join2. rewrite Hrel, Hend.
  by rewrite bool_decide_eq_false_2.
Qed.

Lemma posix_join2_absolute base filepath :
  startswith filepath (lit "/") = true -> posix_join2 base filepath = filepath.
Proof. intros Habs. unfold posix_join2. by rewrite Habs. Qed.

(** The directory of a subdirectory that is relative, not empty and
    without a slash at its end. *)
Lemma posix_join2_subdirectory project_dir subdirectory :
  (1 <= length subdirectory)%nat ->
  startswith subdirectory (lit "/") = false ->
  endswith subdirectory (lit "/") = false ->
  posix_join2 project_dir subdirectory <> [] /\
  endswith (posix_join2 project_dir subdirectory) (lit "/") = false.
Proof.
  intros Hlen Hrel Hend. unfold posix_join2. rewrite Hrel.
  destruct (bool_decide (project_dir = []) || endswith project_dir (lit "/")).
  - split; [destruct project_dir, subdirectory; simpl in *;
             (done || (exfalso; lia))|].
    by rewrite endswith_app_r.
  - split; [by destruct project_dir|].
    rewrite app_assoc. by rewrite endswith_app_r.
Qed.

Lemma under_joined base filepath :
  lit ".." ∉ components filepath ->
  under base (base ++ lit "/" ++ filepath) = true.
Proof.
  intros Hdots. unfold under. rewrite app_assoc, startswith_prefix. simpl.
  replace (length base + 1)%nat with (length (base ++ lit "/"))
    by (rewrite length_app; done).
  rewrite drop_app_length. by rewrite bool_decide_eq_false_2.
Qed.

Lemma subdirectory_of_cases a :
  In a [Orchestrator.FrontendAI; Orchestrator.BackendAI; Orchestrator.DataAI] ->
  (1 <= length (Orchestrator.subdirectory_of a))%nat /\
  startswith (Orchestrator.subdirectory_of a) (lit "/") = false /\
  endswith (Orchestrator.subdirectory_of a) (lit "/") = false.
Proof.
  intros [<-|[<-|[<-|[]]]]; vm_compute; repeat split; lia.
Qed.
End JoinedPaths.

Section CodeGenerationPosix.
Import Orchestrator.
Variable io_error : fs -> str -> str -> option exn.
Variable generate_code : str -> res json.
Variable project_dir : str.

End CodeGenerationPosix.



(** ** Runs on concrete inputs *)

(** The retry settings of [_call_llm] on a function that fails twice. *)
Example wrapper_fails_twice :
  Retry.wrapper 3 2 true cpython_sleep_max
    (fun k : nat =>
       if (k <? 2)%nat then Retry.RaisesException (B := Empty_set) k
       else Retry.Returns 7%nat)
  = (Retry.Returned 7%nat,
     [Retry.Invoke 0; Retry.Sleep 2; Retry.Invoke 1; Retry.Sleep 4;
      Retry.Invoke 2]).
Proof. reflexivity. Qed.

(** On a function that always fails: no sleep after the last attempt. *)
Example wrapper_always_fails :
  Retry.wrapper (V := nat) (B := Empty_set) 3 2 true cpython_sleep_max
    (fun k : nat => Retry.RaisesException k)
  = (Retry.Reraised 2%nat,
     [Retry.Invoke 0; Retry.Sleep 2; Retry.Invoke 1; Retry.Sleep 4;
      Retry.Invoke 2]).
Proof. reflexivity. Qed.

(** A base delay of 1e10 seconds: the first pause is longer than
    [time.sleep] takes, so the wrapper ends in its [OverflowError] after
    one invocation.  A negative base delay ends it in the same way, with
    [ValueError]. *)
Example wrapper_sleep_refused :
  Retry.wrapper (V := nat) (B := Empty_set) 2 (inject_Z (10 ^ 10)) true
    cpython_sleep_max (fun k : nat => Retry.RaisesException k)
  = (Retry.SleepRefused (inject_Z (10 ^ 10)), [Retry.Invoke 0])
  /\
  Retry.wrapper (V := nat) (B := Empty_set) 3 (-1) true
    cpython_sleep_max (fun k : nat => Retry.RaisesException k)
  = (Retry.SleepRefused (-1), [Retry.Invoke 0]).
Proof. split; reflexivity. Qed.

(** A fenced reply that is valid JSON is decoded. *)
Example parse_json_fenced_literal :
  _parse_json json_loads_literals (lit "  ```json true ``` ")
    = Ok (JBool true).
Proof. reflexivity. Qed.

(** Reading the oldest entry does not save it from eviction. *)
Example read_entry_is_still_evicted :
  let c := ResponseCache.mk 2 3600
             [(lit "m:a", (lit "first", 1%Z)); (lit "m:b", (lit "second", 2%Z))] in
  let c1 := (ResponseCache.get identity_digest c (lit "a") (lit "m") 1000).2 in
  let c2 := (ResponseCache.set identity_digest c1
               (lit "c") (lit "m") (lit "third") 2000).2 in
  ResponseCache.cache c2 =
    [(lit "m:b", (lit "second", 2%Z)); (lit "m:c", (lit "third", 2000%Z))].
Proof. reflexivity. Qed.

(** An entry is served until its hour is up and dropped by the first
    [get] after that. *)
Example entry_expires :
  let c := ResponseCache.mk 2 3600 [(lit "m:a", (lit "first", 0%Z))] in
  ResponseCache.get identity_digest c (lit "a") (lit "m") 3599999999
    = (Ok (Some (lit "first")), c) /\
  ResponseCache.get identity_digest c (lit "a") (lit "m") 3600000000
    = (Ok None, ResponseCache.mk 2 3600 []).
Proof. split; reflexivity. Qed.

(** With [max_size = 0] the first [set] fails in [min]. *)
Example set_on_zero_sized_cache :
  ResponseCache.set identity_digest (ResponseCache.init 0 3600)
    (lit "a") (lit "m") (lit "first") 0
  = (Raise ValueError, ResponseCache.init 0 3600).
Proof. reflexivity. Qed.

Example suggest_profile_api :
  ProfileManager.suggest_profile ascii_lower
    (lit "Build a REST API server with ML") = Ok (lit "api_backend").
Proof. by vm_compute. Qed.

Example suggest_profile_default :
  ProfileManager.suggest_profile ascii_lower (lit "Something new")
  = Ok (lit "web_app").
Proof. by vm_compute. Qed.

(** Ties go to the profile listed first: one keyword each for
    [ml_project] and [iot_project]. *)
Example suggest_profile_tie :
  ProfileManager.suggest_profile ascii_lower (lit "neural sensor")
  = Ok (lit "ml_project").
Proof. by vm_compute. Qed.

Example fan_out_sample :
  let out := Orchestrator._parallel_code_generation posix_join sample_io_error
               sample_generate_code (lit "proj") true
               [Orchestrator.DataAI; Orchestrator.FrontendAI;
                Orchestrator.BackendAI] [] in
  out.1 !! Orchestrator.FrontendAI = Some [lit "src/App.tsx"] /\
  out.1 !! Orchestrator.BackendAI = Some [] /\
  out.1 !! Orchestrator.DataAI = Some [] /\
  out.2 = [(lit "proj/10_Code/Frontend/src/App.tsx",
            lit "export default App;")].
Proof. by vm_compute. Qed.

(** ** More on the response cache *)

Section ResponseCacheMore.
Import ResponseCache.
Variable md5_hexdigest : list N -> str.
Implicit Types (c : t) (prompt model response key : str) (now : Z).

Lemma dict_get_del_other {V : Type} (k k' : str) (d : list (str * V)) :
  k ≠ k' -> dict_get k' (dict_del k d) = dict_get k' d.
Proof.
  intros Hne. induction d as [|[k0 v0] d IH]; simpl; [done|].
  destruct (decide (k0 = k)) as [->|Hk]; simpl.
  - by rewrite decide_False.
  - by rewrite IH.
Qed.

Lemma oldest_key_In (d : list (str * (str * Z))) oldest :
  oldest_key d = Ok oldest -> In oldest (dict_keys d).
Proof.
  unfold oldest_key. destruct (dict_keys d) as [|k ks]; simpl; [done|].
  intros H. injection H as <-. apply py_min_from_In.
Qed.


(** Storing under a key that is already present, in a cache that is at its
    bound, still evicts the oldest entry: when that is another key the
    cache ends up one entry short of the bound. *)
Theorem set_existing_key_when_full c prompt model response now key oldest :
  dict_wf (cache c) ->
  (max_size c <= Z.of_nat (length (cache c)))%Z ->
  _hash_key md5_hexdigest prompt model = Ok key ->
  In key (dict_keys (cache c)) ->
  oldest_key (cache c) = Ok oldest ->
  oldest ≠ key ->
  exists c',
    set md5_hexdigest c prompt model response now = (Ok (), c') /\
    S (length (cache c')) = length (cache c) /\
    dict_get oldest (cache c') = None /\
    dict_get key (cache c') = Some (response, now).
Proof.
  intros Hwf Hfull Hkey Hin Hold Hne.
  exists (with_cache c (dict_set key (response, now) (dict_del oldest (cache c)))).
  split; [|split; [|split]]; simpl.
  - unfold set. rewrite Hkey.
    destruct (Z.geb_spec (Z.of_nat (length (cache c))) (max_size c)); [|lia].
    by rewrite Hold.
  - rewrite dict_set_length.
    assert (In key (dict_keys (dict_del oldest (cache c)))) as Hin'
      by (apply dict_keys_In_del; split; [done|congruence]).
    destruct (dict_get_is_Some _ _ Hin') as [v ->].
    apply dict_del_length; [done|]. by apply oldest_key_In.
  - rewrite dict_get_set_other by congruence. apply dict_get_del_same.
  - apply dict_get_set_same.
Qed.

(** A [get] touches no entry but the one under the key it asks for, and
    leaves [max_size] and [ttl] alone. *)
Theorem get_leaves_other_keys c prompt model now key' :
  (forall key, _hash_key md5_hexdigest prompt model = Ok key -> key' ≠ key) ->
  dict_get key' (cache (get md5_hexdigest c prompt model now).2)
    = dict_get key' (cache c) /\
  max_size (get md5_hexdigest c prompt model now).2 = max_size c /\
  ttl (get md5_hexdigest c prompt model now).2 = ttl c.
Proof.
  intros Hother. unfold get.
  destruct (_hash_key md5_hexdigest prompt model) as [key|e]; [|done].
  destruct (dict_get key (cache c)) as [[resp ts]|]; [|done].
  destruct (now - ts <? timedelta_seconds (ttl c))%Z; [done|]. simpl.
  split; [|done]. apply dict_get_del_other. intros ->. by apply (Hother key').
Qed.

(** A [set] changes at most two keys: the one it stores under and, when
    the cache is at its bound, the oldest one. *)
Theorem set_leaves_other_keys c prompt model response now key' :
  (forall key, _hash_key md5_hexdigest prompt model = Ok key -> key' ≠ key) ->
  (forall oldest, oldest_key (cache c) = Ok oldest -> key' ≠ oldest) ->
  dict_get key' (cache (set md5_hexdigest c prompt model response now).2)
    = dict_get key' (cache c).
Proof.
  intros Hkey Hold. unfold set.
  destruct (_hash_key md5_hexdigest prompt model) as [key|e]; [|done].
  assert (key ≠ key') as Hne by (intros ->; by apply (Hkey key')).
  destruct (Z.of_nat (length (cache c)) >=? max_size c)%Z.
  - destruct (oldest_key (cache c)) as [oldest|e]; [|done]. simpl.
    rewrite dict_get_set_other by done.
    apply dict_get_del_other. intros ->. by apply (Hold key').
  - simpl. by rewrite dict_get_set_other.
Qed.
End ResponseCacheMore.


Lemma set_existing_key_when_full_witness :
  let c := ResponseCache.mk 2 3600
             [(lit "m:a", (lit "first", 1%Z)); (lit "m:b", (lit "second", 2%Z))] in
  dict_wf (ResponseCache.cache c) /\
  exists c',
    ResponseCache.set identity_digest c (lit "b") (lit "m") (lit "again") 9
      = (Ok (), c') /\
    S (length (ResponseCache.cache c')) = length (ResponseCache.cache c).
Proof.
  intros c.
  assert (dict_wf (ResponseCache.cache c)) as Hwf.
  { apply (bool_decide_unpack _). by vm_compute. }
  split; [exact Hwf|].
  destruct (set_existing_key_when_full identity_digest c (lit "b") (lit "m")
              (lit "again") 9 (lit "m:b") (lit "m:a") Hwf)
    as (c' & Hset & Hlen & _).
  - simpl. lia.
  - reflexivity.
  - simpl. auto.
  - reflexivity.
  - discriminate.
  - exists c'. split; [exact Hset|exact Hlen].
Defined.

Lemma get_leaves_other_keys_witness :
  let c := ResponseCache.mk 2 1
             [(lit "m:a", (lit "first", 1%Z)); (lit "m:b", (lit "second", 2%Z))] in
  (forall key, ResponseCache._hash_key identity_digest (lit "a") (lit "m")
               = Ok key -> lit "m:b" ≠ key) /\
  dict_get (lit "m:b")
    (ResponseCache.cache
       (ResponseCache.get identity_digest c (lit "a") (lit "m") 5000000).2)
  = Some (lit "second", 2%Z).
Proof.
  intros c.
  assert (forall key, ResponseCache._hash_key identity_digest (lit "a") (lit "m")
                      = Ok key -> lit "m:b" ≠ key) as Hother.
  { intros key H. vm_compute in H. injection H as <-. discriminate. }
  split; [exact Hother|].
  destruct (get_leaves_other_keys identity_digest c (lit "a") (lit "m")
              5000000 (lit "m:b") Hother) as [-> _].
  reflexivity.
Defined.

Lemma set_leaves_other_keys_witness :
  let c := ResponseCache.mk 2 3600
             [(lit "m:a", (lit "first", 1%Z)); (lit "m:b", (lit "second", 2%Z))] in
  (forall key, ResponseCache._hash_key identity_digest (lit "c") (lit "m")
               = Ok key -> lit "m:b" ≠ key) /\
  (forall oldest, ResponseCache.oldest_key (ResponseCache.cache c) = Ok oldest ->
                  lit "m:b" ≠ oldest) /\
  dict_get (lit "m:b")
    (ResponseCache.cache
       (ResponseCache.set identity_digest c (lit "c") (lit "m") (lit "third") 9).2)
  = Some (lit "second", 2%Z).
Proof.
  intros c.
  assert (forall key, ResponseCache._hash_key identity_digest (lit "c") (lit "m")
                      = Ok key -> lit "m:b" ≠ key) as Hkey.
  { intros key H. vm_compute in H. injection H as <-. discriminate. }
  assert (forall oldest,
             ResponseCache.oldest_key (ResponseCache.cache c) = Ok oldest ->
             lit "m:b" ≠ oldest) as Hold.
  { intros oldest H. vm_compute in H. injection H as <-. discriminate. }
  split; [exact Hkey|]. split; [exact Hold|].
  rewrite (set_leaves_other_keys identity_digest c (lit "c") (lit "m")
             (lit "third") 9 (lit "m:b") Hkey Hold).
  reflexivity.
Defined.

(** ** Time slept by the retry wrapper *)

Section RetrySleep.
Import Retry.
Context {V E B : Type}.
Variable max_retries : Z.
Variable base_delay : Q.
Variable float_delay : bool.
Variable sleep_max : Q.
Variable func : nat -> outcome V E B.

Local Abbreviation attempts :=
  (attempts max_retries base_delay float_delay sleep_max func).
Local Abbreviation wrapper :=
  (wrapper max_retries base_delay float_delay sleep_max func).
Local Abbreviation delay_of := (delay_of base_delay).

Lemma delay_of_S a : (delay_of (S a) == 2 * delay_of a)%Q.
Proof.
  unfold Retry.delay_of.
  rewrite Nat2Z.inj_succ, Z.pow_succ_r by lia.
  rewrite inject_Z_mult. change (inject_Z 2) with 2%Q. ring.
Qed.

Lemma delay_of_0 : (delay_of 0 == base_delay)%Q.
Proof.
  unfold Retry.delay_of. change (2 ^ Z.of_nat 0)%Z with 1%Z.
  change (inject_Z 1) with 1%Q. ring.
Qed.

Lemma attempts_total_sleep n a last :
  (a + n = Z.to_nat max_retries)%nat ->
  (1 <= n)%nat ->
  (total_sleep (attempts n a last).2 ==
   delay_of (a + length (invocations (attempts n a last).2) - 1) - delay_of a)%Q.
Proof.
  revert a last. induction n as [|n IH]; intros a last Hn Hpos; [lia|].
  simpl.
  destruct (func a) as [v|e|b] eqn:Hfunc; simpl.
  - replace (a + 1 - 1)%nat with a by lia. ring.
  - destruct (Z.ltb_spec (Z.of_nat a) (max_retries - 1)) as [Hlt|Hge].
    + destruct (Retry.delay_overflows float_delay a); simpl.
      { replace (a + 1 - 1)%nat with a by lia. ring. }
      destruct (Retry.sleep_accepts sleep_max (delay_of a)) eqn:Hd; simpl.
      * destruct (attempts_invocations max_retries base_delay float_delay
                    sleep_max func n (S a) (Some e))
          as (m & Hm & Hm1 & Hseq).
        rewrite IH by lia. rewrite Hseq, length_seq.
        assert (1 <= m)%nat by (apply Hm1; lia).
        replace (S a + m - 1)%nat with (a + m)%nat by lia.
        replace (a + S m - 1)%nat with (a + m)%nat by lia.
        rewrite delay_of_S. ring.
      * replace (a + 1 - 1)%nat with a by lia. ring.
    + assert (n = 0)%nat as -> by lia. simpl.
      replace (a + 1 - 1)%nat with a by lia. ring.
  - replace (a + 1 - 1)%nat with a by lia. ring.
Qed.

(** However the invocations turn out, the wrapper sleeps
    [base_delay * (2^(m-1) - 1)] seconds in all, [m] being the number of
    invocations it makes; with a non-negative [base_delay] that is at most
    [base_delay * (2^(max_retries-1) - 1)]. *)
Theorem wrapper_total_sleep :
  (1 <= max_retries)%Z ->
  (total_sleep wrapper.2 ==
   base_delay *
     (inject_Z (2 ^ Z.of_nat (length (invocations wrapper.2) - 1)) - 1))%Q /\
  ((0 <= base_delay)%Q ->
   (total_sleep wrapper.2 <=
    base_delay * (inject_Z (2 ^ (max_retries - 1)) - 1))%Q).
Proof.
  intros Hmax. unfold Retry.wrapper.
  assert (total_sleep (attempts (Z.to_nat max_retries) 0 None).2 ==
          base_delay *
            (inject_Z (2 ^ Z.of_nat
               (length (invocations (attempts (Z.to_nat max_retries) 0 None).2)
                - 1)) - 1))%Q as Heq.
  { rewrite attempts_total_sleep by lia. rewrite delay_of_0. simpl.
    unfold Retry.delay_of. ring. }
  split; [exact Heq|]. intros Hb. rewrite Heq.
  destruct (attempts_invocations max_retries base_delay float_delay sleep_max
              func (Z.to_nat max_retries) 0 None) as (m & Hm & _ & Hseq).
  rewrite Hseq, length_seq.
  rewrite !(Qmult_comm base_delay). apply Qmult_le_compat_r; [|done].
  unfold Qminus. apply Qplus_le_l. rewrite <- Zle_Qle.
  apply Z.pow_le_mono_r; lia.
Qed.
End RetrySleep.

(** With the settings of [_call_llm], three attempts and a base delay of
    two seconds, the wrapper sleeps at most six seconds. *)
Lemma wrapper_total_sleep_witness :
  (1 <= 3)%Z /\ (0 <= 2)%Q /\
  (total_sleep
     (Retry.wrapper (V := nat) (B := Empty_set) 3 2 true cpython_sleep_max
        (fun k : nat => Retry.RaisesException k)).2 <= 6)%Q.
Proof.
  split; [lia|]. split; [by compute|].
  apply (wrapper_total_sleep 3 2 true cpython_sleep_max
           (fun k : nat => Retry.RaisesException k) ltac:(lia)).
  by compute.
Defined.

(** ** One attempt of [_call_llm] and the cache *)

Section CallLlmFacts.
Import ResponseCache.
Variable md5_hexdigest : list N -> str.
Implicit Types (c : t) (prompt model : str).


End CallLlmFacts.



(** ** A reply that is not JSON, from [_parse_json] to the disk *)

Section UndecodableReply.
Import Orchestrator.
Variable json_loads : str -> loads_result.
Variable os_path_join : list str -> str.
Variable io_error : fs -> str -> str -> option exn.
Variable project_dir : str.

(** When [json.loads] raises [JSONDecodeError] on the reply of a code
    agent, [_parse_json] returns its fallback dict, and the fallback dict of
    [_parse_json] goes to [_save_code_files] like any code dict: if the
    cleaned reply has more than ten code points it is written, cleaned once
    more, to a file named [raw_response] in the agent's directory and
    reported as a created file; if it is shorter nothing is written and
    nothing is reported. *)
Theorem undecodable_reply_is_saved_as_a_file reply subdirectory disk :
  json_loads (strip (clean_response reply)) = JSONDecodeError ->
  let code_dict := JDict [(lit "raw_response", JStr (clean_response reply))] in
  Agent.parse_reply json_loads reply = Ok code_dict /\
  ((length (clean_response reply) <= 10)%nat ->
   _save_code_files os_path_join io_error project_dir
     code_dict subdirectory disk = (Ok [], disk)) /\
  ((10 < length (clean_response reply))%nat ->
   io_error disk
     (full_path_of os_path_join project_dir subdirectory (lit "raw_response"))
     (clean_content (clean_response reply)) = None ->
   _save_code_files os_path_join io_error project_dir
     code_dict subdirectory disk =
   (Ok [lit "raw_response"],
    disk ++ [(full_path_of os_path_join project_dir subdirectory
                (lit "raw_response"),
              clean_content (clean_response reply))])).
Proof.
  intros Hfail code_dict. subst code_dict.
  unfold Agent.parse_reply, _parse_json. rewrite Hfail.
  split; [done|].
  unfold _save_code_files, save_items, writable.
  split.
  - intros Hshort.
    destruct (Nat.ltb_spec 10 (length (clean_response reply))); [lia|done].
  - intros Hlong Hio.
    destruct (Nat.ltb_spec 10 (length (clean_response reply))); [|lia].
    unfold write_file. by rewrite Hio.
Qed.
End UndecodableReply.

(** The reply of an agent without client, "Error: OpenAI package not
    installed", ends up as the file [10_Code/Backend/raw_response]. *)
Lemma undecodable_reply_is_saved_as_a_file_witness :
  let reply := lit "Error: OpenAI package not installed" in
  let code_dict := JDict [(lit "raw_response", JStr reply)] in
  json_loads_literals (strip (clean_response reply)) = JSONDecodeError /\
  (10 < length (clean_response reply))%nat /\
  Agent.parse_reply json_loads_literals reply = Ok code_dict /\
  Orchestrator._save_code_files posix_join sample_io_error (lit "proj")
    code_dict (lit "10_Code/Backend") []
  = (Ok [lit "raw_response"],
     [(lit "proj/10_Code/Backend/raw_response", reply)]).
Proof.
  intros reply code_dict.
  assert (json_loads_literals (strip (clean_response reply)) = JSONDecodeError)
    as Hfail by reflexivity.
  assert (10 < length (clean_response reply))%nat as Hlong
    by (vm_compute; lia).
  split; [exact Hfail|]. split; [exact Hlong|].
  destruct (undecodable_reply_is_saved_as_a_file json_loads_literals
              posix_join sample_io_error (lit "proj") reply
              (lit "10_Code/Backend") [] Hfail) as (Hparse & _ & Hsave).
  split; [exact Hparse|]. exact (Hsave Hlong eq_refl).
Defined.

(** ** The configuration tree: [get] and [_deep_merge] *)

Section ConfigFacts.
Import ConfigManager.
Implicit Types (base override config : list (str * json)) (keys : list str).

Lemma dict_keys_set_absent {V : Type} k (v : V) (d : list (str * V)) :
  ¬ In k (dict_keys d) -> dict_keys (dict_set k v d) = dict_keys d ++ [k].
Proof.
  induction d as [|[k0 v0] d IH]; simpl; [done|]. intros Hnotin.
  destruct (decide (k0 = k)) as [->|Hne]; [tauto|].
  simpl. f_equal. apply IH. tauto.
Qed.

Lemma deep_merge_cons base key value override :
  _deep_merge base ((key, value) :: override)
    = _deep_merge (merge_entry base key value) override.
Proof.
  unfold _deep_merge, merge_entry. simpl.
  destruct (dict_get key base) as [[]|]; destruct value; reflexivity.
Qed.

Lemma merge_entry_is_set base key value :
  merge_entry base key value = dict_set key (merged_value base key value) base.
Proof.
  unfold merge_entry, merged_value.
  destruct (dict_get key base) as [[]|]; destruct value; reflexivity.
Qed.

Lemma merge_entry_get_other base key value key' :
  key ≠ key' -> dict_get key' (merge_entry base key value) = dict_get key' base.
Proof. intros Hne. rewrite merge_entry_is_set. by apply dict_get_set_other. Qed.

Lemma deep_merge_get_untouched base override key :
  ¬ In key (dict_keys override) ->
  dict_get key (_deep_merge base override) = dict_get key base.
Proof.
  revert base. induction override as [|[k v] override IH]; intros base Hnotin.
  - done.
  - rewrite deep_merge_cons, IH by (simpl in Hnotin; tauto).
    apply merge_entry_get_other. simpl in Hnotin. tauto.
Qed.

Lemma deep_merge_get_entry base override key value :
  dict_wf override -> In (key, value) override ->
  dict_get key (_deep_merge base override) = Some (merged_value base key value).
Proof.
  unfold dict_wf. revert base.
  induction override as [|[k v] override IH]; intros base Hwf Hin; [done|].
  simpl in Hwf. apply NoDup_cons in Hwf as [Hnotin Hwf].
  rewrite list_elem_of_In in Hnotin. rewrite deep_merge_cons.
  destruct Hin as [Heq|Hin].
  - injection Heq as -> ->.
    rewrite deep_merge_get_untouched by done.
    rewrite merge_entry_is_set. apply dict_get_set_same.
  - assert (k ≠ key) as Hne.
    { intros ->. apply Hnotin. apply (in_map fst) in Hin. exact Hin. }
    rewrite (IH (merge_entry base k v) Hwf Hin). f_equal.
    unfold merged_value. by rewrite merge_entry_get_other.
Qed.

Lemma reaches_get tree keys value default :
  reaches tree keys value -> get_from tree keys default = value.
Proof.
  revert tree. induction keys as [|key keys IH]; intros tree; simpl; [done|].
  intros (d & tree' & -> & Hwf & Hin & Hrest).
  rewrite (dict_get_of_In key tree' d Hwf Hin). by apply IH.
Qed.

(** [get] walks down one key at a time: past a value that a path of keys
    reaches it goes on from that value, and once the value is not a dict
    any further key yields the default. *)
Theorem get_along_a_path config keys value more default :
  reaches (JDict config) keys value ->
  get config (keys ++ more) default = get_from value more default /\
  (is_dict value = false -> more ≠ [] ->
   get config (keys ++ more) default = default).
Proof.
  unfold get. generalize (JDict config). intros tree Hreach.
  assert (get_from tree (keys ++ more) default = get_from value more default)
    as Heq.
  { revert tree Hreach. induction keys as [|key keys IH]; intros tree; simpl.
    - by intros ->.
    - intros (d & tree' & -> & Hwf & Hin & Hrest).
      rewrite (dict_get_of_In key tree' d Hwf Hin). by apply IH. }
  split; [done|]. intros Hleaf Hmore. rewrite Heq.
  destruct more as [|key more]; [done|]. by destruct value.
Qed.

(** After [_deep_merge] the keys of the base are where they were, in
    their order, and the keys that only the override has follow them. *)
Theorem deep_merge_keeps_key_order base override :
  exists added,
    dict_keys (_deep_merge base override) = dict_keys base ++ added /\
    (forall key, In key added ->
                 In key (dict_keys override) /\ ¬ In key (dict_keys base)) /\
    (forall key, In key (dict_keys override) ->
                 In key (dict_keys (_deep_merge base override))).
Proof.
  revert base. induction override as [|[k v] override IH]; intros base.
  - exists []. rewrite app_nil_r. by repeat split.
  - rewrite deep_merge_cons.
    destruct (IH (merge_entry base k v)) as (added & Hkeys & Hadded & Hall).
    rewrite merge_entry_is_set in Hkeys, Hadded, Hall.
    destruct (decide (k ∈ dict_keys base)) as [Hin|Hnotin];
      rewrite list_elem_of_In in *.
    + rewrite dict_keys_set_present in Hkeys, Hadded by done.
      exists added. rewrite merge_entry_is_set. split; [done|]. split.
      * intros key Hkey. destruct (Hadded key Hkey). simpl. tauto.
      * intros key [<-|Hkey]; [|by apply Hall].
        rewrite Hkeys. apply in_or_app. by left.
    + rewrite dict_keys_set_absent in Hkeys, Hadded by done.
      exists (k :: added). rewrite merge_entry_is_set.
      rewrite Hkeys, <- app_assoc. split; [done|]. split.
      * intros key [<-|Hkey]; [simpl; tauto|].
        destruct (Hadded key Hkey) as [H1 H2]. split; [simpl; tauto|].
        intros H. apply H2. apply in_or_app. by left.
      * intros key [<-|Hkey].
        -- apply in_or_app. right. by left.
        -- apply Hall in Hkey. by rewrite Hkeys, <- app_assoc in Hkey.
Qed.

(** The override wins: a value of the override that is not a dict is what
    [get] finds at its path after the merge, whatever the base held. *)
Theorem deep_merge_override_wins base override keys value default :
  reaches (JDict override) keys value ->
  keys ≠ [] ->
  is_dict value = false ->
  get (_deep_merge base override) keys default = value.
Proof.
  unfold get. revert base override.
  induction keys as [|key keys IH]; intros base override Hreach Hne Hleaf;
    [done|].
  destruct Hreach as (d & tree' & Hd & Hwf & Hin & Hrest).
  injection Hd as <-. simpl.
  rewrite (deep_merge_get_entry base override key tree' Hwf Hin).
  destruct keys as [|key' keys].
  - simpl in Hrest. subst tree'. unfold merged_value.
    destruct (dict_get key base) as [[]|]; by destruct value.
  - assert (exists override', tree' = JDict override') as [override' ->]
      by (destruct Hrest as (d' & ? & -> & _); eauto).
    unfold merged_value.
    destruct (dict_get key base) as [[| | | | | |sub]|];
      try (by apply reaches_get).
    by apply IH.
Qed.

(** What the override does not mention survives: a value of the base
    whose path the override spares is still found there after the merge. *)
Theorem deep_merge_keeps_spared_defaults base override keys value default :
  reaches (JDict base) keys value ->
  spares override keys ->
  get (_deep_merge base override) keys default = value.
Proof.
  unfold get. revert base override.
  induction keys as [|key keys IH]; intros base override Hreach Hspare;
    [done|].
  destruct Hreach as (d & tree' & Hd & Hwf & Hin & Hrest).
  injection Hd as <-. simpl.
  destruct Hspare as [Hnotin|(override' & Hwfo & Hino & Hspare)].
  - rewrite deep_merge_get_untouched by done.
    rewrite (dict_get_of_In key tree' base Hwf Hin). by apply reaches_get.
  - rewrite (deep_merge_get_entry base override key _ Hwfo Hino).
    unfold merged_value. rewrite (dict_get_of_In key tree' base Hwf Hin).
    destruct keys as [|key' keys]; [done|].
    destruct Hrest as (sub & tree'' & -> & Hrest).
    apply IH; [|done]. simpl. eauto.
Qed.
End ConfigFacts.

(** ** Environment overrides and the model of an agent *)

Section ConfigInitFacts.
Import ConfigManager ConfigInit.

Lemma set_every_model_get models model key :
  dict_get key (set_every_model models model) =
    match dict_get key models with
    | Some _ => Some (JStr model)
    | None => None
    end.
Proof.
  unfold set_every_model.
  assert (forall ks acc,
             dict_get key
               (fold_left (fun models key => dict_set key (JStr model) models)
                  ks acc) =
             if decide (key ∈ ks) then Some (JStr model) else dict_get key acc)
    as Hfold.
  { induction ks as [|k ks IH]; intros acc; cbn [fold_left].
    - by rewrite decide_False by apply not_elem_of_nil.
    - rewrite IH. destruct (decide (key ∈ ks)) as [Hin|Hnotin].
      + rewrite decide_True; [done|]. by apply elem_of_cons; right.
      + destruct (decide (k = key)) as [->|Hne].
        * rewrite decide_True by (apply elem_of_cons; by left).
          apply dict_get_set_same.
        * rewrite decide_False.
          -- by apply dict_get_set_other.
          -- rewrite elem_of_cons. intros [?|?]; [congruence|done]. }
  rewrite Hfold. destruct (decide (key ∈ dict_keys models)) as [Hin|Hnotin].
  - rewrite list_elem_of_In in Hin.
    by destruct (dict_get_is_Some _ _ Hin) as [v ->].
  - rewrite list_elem_of_In in Hnotin.
    by rewrite (dict_get_None_notin key models Hnotin).
Qed.

Lemma override_api_key_models config env_api_key config' model_type :
  override_api_key config env_api_key = Ok config' ->
  model_for config' model_type = model_for config model_type.
Proof.
  unfold override_api_key, model_for, get.
  destruct env_api_key as [[|c s]|]; try (by intros [= <-]).
  destruct (dict_get (lit "api") config) as [[| | | | | |api]|] eqn:Hapi;
    try done.
  intros [= <-]. simpl. rewrite dict_get_set_same, Hapi.
  by rewrite dict_get_set_other.
Qed.

End ConfigInitFacts.


(** The defaults, a YAML file that sets [api.timeout] and adds a section,
    and the three paths of the theorems above. *)
Lemma get_along_a_path_witness :
  ConfigManager.reaches (JDict ConfigInit.DEFAULT_CONFIG)
    [lit "api"; lit "timeout"] (JInt 120) /\
  ConfigManager.get ConfigInit.DEFAULT_CONFIG
    ([lit "api"; lit "timeout"] ++ [lit "seconds"]) JNone = JNone.
Proof.
  assert (ConfigManager.reaches (JDict ConfigInit.DEFAULT_CONFIG)
            [lit "api"; lit "timeout"] (JInt 120)) as Hreach.
  { eexists _, _. split; [reflexivity|].
    split; [apply (bool_decide_unpack _); by vm_compute|].
    split; [left; reflexivity|].
    eexists _, _. split; [reflexivity|].
    split; [apply (bool_decide_unpack _); by vm_compute|].
    split; [do 5 right; left; reflexivity|reflexivity]. }
  split; [exact Hreach|].
  apply (get_along_a_path ConfigInit.DEFAULT_CONFIG [lit "api"; lit "timeout"]
           (JInt 120) [lit "seconds"] JNone Hreach); done.
Defined.

Lemma deep_merge_override_wins_witness :
  let override := [(lit "api", JDict [(lit "timeout", JInt 5)])] in
  ConfigManager.reaches (JDict override) [lit "api"; lit "timeout"] (JInt 5) /\
  ConfigManager.get (ConfigManager._deep_merge ConfigInit.DEFAULT_CONFIG override)
    [lit "api"; lit "timeout"] JNone = JInt 5.
Proof.
  intros override.
  assert (ConfigManager.reaches (JDict override) [lit "api"; lit "timeout"]
            (JInt 5)) as Hreach.
  { eexists _, _. split; [reflexivity|].
    split; [apply (bool_decide_unpack _); by vm_compute|].
    split; [left; reflexivity|].
    eexists _, _. split; [reflexivity|].
    split; [apply (bool_decide_unpack _); by vm_compute|].
    split; [left; reflexivity|reflexivity]. }
  split; [exact Hreach|].
  apply (deep_merge_override_wins ConfigInit.DEFAULT_CONFIG override
           [lit "api"; lit "timeout"] (JInt 5) JNone Hreach); done.
Defined.

Lemma deep_merge_keeps_spared_defaults_witness :
  let override := [(lit "api", JDict [(lit "timeout", JInt 5)])] in
  ConfigManager.reaches (JDict ConfigInit.DEFAULT_CONFIG)
    [lit "api"; lit "max_retries"] (JInt 3) /\
  ConfigManager.spares override [lit "api"; lit "max_retries"] /\
  ConfigManager.get (ConfigManager._deep_merge ConfigInit.DEFAULT_CONFIG override)
    [lit "api"; lit "max_retries"] JNone = JInt 3.
Proof.
  intros override.
  assert (ConfigManager.reaches (JDict ConfigInit.DEFAULT_CONFIG)
            [lit "api"; lit "max_retries"] (JInt 3)) as Hreach.
  { eexists _, _. split; [reflexivity|].
    split; [apply (bool_decide_unpack _); by vm_compute|].
    split; [left; reflexivity|].
    eexists _, _. split; [reflexivity|].
    split; [apply (bool_decide_unpack _); by vm_compute|].
    split; [do 3 right; left; reflexivity|reflexivity]. }
  assert (ConfigManager.spares override [lit "api"; lit "max_retries"])
    as Hspare.
  { right. eexists. split; [apply (bool_decide_unpack _); by vm_compute|].
    split; [left; reflexivity|].
    left. simpl. intros [H|[]]. discriminate H. }
  split; [exact Hreach|]. split; [exact Hspare|].
  apply (deep_merge_keeps_spared_defaults ConfigInit.DEFAULT_CONFIG override
           [lit "api"; lit "max_retries"] (JInt 3) JNone Hreach Hspare).
Defined.

(** ** The project name *)

Section ExtractNameFacts.
Import Naming.
Variable lower : str -> str.
Variable isalnum_char : N -> bool.

Lemma join_In sep parts c :
  In c (join sep parts) -> In c sep \/ exists p, In p parts /\ In c p.
Proof.
  induction parts as [|p parts IH]; simpl; [done|].
  destruct parts as [|p' parts].
  - intros Hin. right. exists p. auto.
  - rewrite !in_app_iff. intros [Hin|[Hin|Hin]].
    + right. exists p. auto.
    + by left.
    + destruct (IH Hin) as [?|(q & Hq & Hc)]; [by left|].
      right. exists q. split; [by right|done].
Qed.

Lemma take_In {A : Type} (n : nat) (l : list A) (x : A) :
  In x (take n l) -> In x l.
Proof.
  rewrite <- !list_elem_of_In. intros H.
  by apply (subseteq_take n l).
Qed.

(** The name [_extract_name] gives a project is never empty and never
    longer than thirty code points, and it is made of alphanumeric code
    points and hyphens only, unless it is the fallback [new-project]. *)
Theorem extract_name_is_a_short_slug description :
  let name := _extract_name lower isalnum_char description in
  (1 <= length name <= 30)%nat /\
  (name = lit "new-project" \/
   forall c, In c name -> isalnum_char c = true \/ c = 45%N).
Proof.
  intros name. subst name. unfold _extract_name.
  set (words := take 4 (split_whitespace (lower description))).
  set (slug := join (lit "-") (List.filter (isalnum isalnum_char) words)).
  assert (length (take 30 slug) <= 30)%nat as Hle
    by (rewrite length_take; lia).
  destruct (take 30 slug) as [|c0 rest] eqn:Htake.
  - split; [simpl; lia|by left].
  - split; [simpl in *; lia|]. right. intros c Hc.
    rewrite <- Htake in Hc. apply take_In in Hc.
    apply join_In in Hc as [Hsep|(w & Hw & Hcw)].
    + right. simpl in Hsep. destruct Hsep as [<-|[]]. done.
    + left. apply filter_In in Hw as [_ Hw].
      unfold isalnum in Hw. apply andb_true_iff in Hw as [_ Hw].
      by apply (proj1 (forallb_forall _ _) Hw).
Qed.
End ExtractNameFacts.

Example extract_name_sample :
  Naming._extract_name ascii_lower ascii_isalnum
    (lit "Build a To-Do app for   teams") = lit "build-a-app".
Proof. reflexivity. Qed.

Example extract_name_fallback :
  Naming._extract_name ascii_lower ascii_isalnum (lit "  !!! ???  ")
  = lit "new-project".
Proof. reflexivity. Qed.

(** ** Quality gates *)

Section QualityFacts.
Import Validation Quality.
Implicit Types (gate : QualityGate) (r : ValidationReport)
  (x : ValidationResult).

Lemma found_passed_spec req (rs : list ValidationResult) :
  found_passed req rs = true <->
  exists x, In x rs /\ name x = req /\ status x = PASSED.
Proof.
  induction rs as [|x rs IH]; simpl.
  - split; [done|]. by intros (x & [] & _).
  - destruct (bool_decide (name x = req) && status_eqb (status x) PASSED)
      eqn:Hx.
    + split; [|done]. intros _. exists x.
      apply andb_true_iff in Hx as [Hname Hstatus].
      apply bool_decide_eq_true in Hname.
      split; [by left|]. split; [done|]. by destruct (status x).
    + rewrite IH. split.
      * intros (y & Hy & Hn & Hs). exists y. auto.
      * intros (y & [<-|Hy] & Hn & Hs); [|by exists y].
        rewrite Hs, bool_decide_true in Hx by done. done.
Qed.

Lemma found_passed_app req (rs1 rs2 : list ValidationResult) :
  found_passed req (rs1 ++ rs2) = found_passed req rs1 || found_passed req rs2.
Proof.
  induction rs1 as [|x rs1 IH]; simpl; [done|].
  by destruct (bool_decide (name x = req) && status_eqb (status x) PASSED).
Qed.

Lemma all_required_passed_spec required (rs : list ValidationResult) :
  all_required_passed required rs = true <->
  forall req, In req required -> found_passed req rs = true.
Proof.
  induction required as [|req required IH]; simpl.
  - split; [by intros _ ? []|done].
  - destruct (found_passed req rs) eqn:Hreq.
    + rewrite IH. split.
      * intros H req' [<-|Hin]; auto.
      * intros H req' Hin. apply H. by right.
    + split; [done|]. intros H. rewrite <- Hreq. apply H. by left.
Qed.

(** [evaluate] says yes exactly when all four conditions hold. *)
Lemma evaluate_spec gate r :
  evaluate gate r = true <->
  (failed r <= max_failures gate)%Z /\
  (warnings r <= max_warnings gate)%Z /\
  (min_score gate <= score r)%Q /\
  forall req, In req (required_checks gate) ->
              found_passed req (results r) = true.
Proof.
  unfold evaluate.
  destruct (Z.gtb_spec (failed r) (max_failures gate)) as [Hf|Hf].
  { split; [done|]. intros (? & _). lia. }
  destruct (Z.gtb_spec (warnings r) (max_warnings gate)) as [Hw|Hw].
  { split; [done|]. intros (_ & ? & _). lia. }
  destruct (Qle_bool (min_score gate) (score r)) eqn:Hscore; simpl.
  - apply Qle_bool_iff in Hscore. rewrite all_required_passed_spec.
    split; [intros Hreq; repeat split; (lia || done)|].
    by intros (_ & _ & _ & Hreq).
  - split; [done|]. intros (_ & _ & Hs & _).
    apply Qle_bool_iff in Hs. congruence.
Qed.

Lemma select_gate_cases quality_gate :
  select_gate quality_gate = basic \/ select_gate quality_gate = standard \/
  select_gate quality_gate = strict.
Proof.
  unfold select_gate, QUALITY_GATES. simpl.
  repeat (case_decide; simpl; [tauto|]). tauto.
Qed.

(** The predefined gates are nested: a report that passes [strict] passes
    [standard], and one that passes [standard] passes [basic]; so whatever
    gate name [run_validation] is given, unknown names included, a report
    that passes [strict] is let through and one that fails [basic] is not. *)
Theorem predefined_gates_are_nested r :
  (evaluate strict r = true -> evaluate standard r = true) /\
  (evaluate standard r = true -> evaluate basic r = true) /\
  (forall quality_gate,
      (evaluate strict r = true ->
       evaluate (select_gate quality_gate) r = true) /\
      (evaluate (select_gate quality_gate) r = true ->
       evaluate basic r = true)).
Proof.
  assert (evaluate strict r = true -> evaluate standard r = true) as H1.
  { rewrite !evaluate_spec. simpl. intros (Hf & Hw & Hs & Hreq).
    split; [lia|]. split; [lia|]. split.
    - apply (Qle_trans _ 90); [by compute|done].
    - intros req [<-|[<-|[]]]; apply Hreq; simpl; auto. }
  assert (evaluate standard r = true -> evaluate basic r = true) as H2.
  { rewrite !evaluate_spec. simpl. intros (Hf & Hw & Hs & Hreq).
    split; [lia|]. split; [lia|]. split; [|by intros ? []].
    apply (Qle_trans _ 70); [by compute|done]. }
  split; [done|]. split; [done|]. intros quality_gate.
  destruct (select_gate_cases quality_gate) as [->|[->| ->]]; auto.
Qed.

Lemma ratio_le (a b c d : Z) :
  (0 < b)%Z -> (0 < d)%Z -> (a * d <= c * b)%Z ->
  (inject_Z a / inject_Z b * 100 <= inject_Z c / inject_Z d * 100)%Q.
Proof.
  intros Hb Hd Hcross.
  apply Qmult_le_compat_r; [|by compute].
  destruct b as [|bp|bp]; [lia| |lia]. destruct d as [|dp|dp]; [lia| |lia].
  unfold Qle, Qdiv, Qmult, Qinv, inject_Z. simpl. lia.
Qed.

Lemma score_le_100 r :
  (0 <= passed r)%Z -> (0 <= failed r)%Z -> (0 <= warnings r)%Z ->
  (score r <= 100)%Q.
Proof.
  intros Hp Hf Hw. unfold score.
  destruct (Z.eqb_spec (passed r + failed r + warnings r) 0); [by compute|].
  apply (Qle_trans _ (inject_Z 1 / inject_Z 1 * 100)); [|by compute].
  apply ratio_le; lia.
Qed.

(** Another passed check never lowers the score. *)
Lemma score_after_passed r x :
  (0 <= passed r)%Z -> (0 <= failed r)%Z -> (0 <= warnings r)%Z ->
  status x = PASSED -> (score r <= score (add_result r x))%Q.
Proof.
  intros Hp Hf Hw Hx. unfold add_result. rewrite Hx.
  apply (Qle_trans _ (inject_Z (passed r + 1) /
                      inject_Z (passed r + 1 + failed r + warnings r) * 100)).
  - unfold score at 1.
    destruct (Z.eqb_spec (passed r + failed r + warnings r) 0) as [H0|Hne].
    + assert (passed r = 0 /\ failed r = 0 /\ warnings r = 0)%Z
        as (-> & -> & ->) by lia.
      by compute.
    + apply ratio_le; nia.
  - unfold score. simpl.
    destruct (Z.eqb_spec (passed r + 1 + failed r + warnings r) 0); [lia|].
    apply Qle_refl.
Qed.

(** Another failed check or warning never raises it. *)
Lemma score_after_failure r x :
  (0 <= passed r)%Z -> (0 <= failed r)%Z -> (0 <= warnings r)%Z ->
  status x = FAILED \/ status x = WARNING ->
  (score (add_result r x) <= score r)%Q.
Proof.
  intros Hp Hf Hw Hx.
  assert (exists f w,
             (failed r <= f)%Z /\ (warnings r <= w)%Z /\
             (f + w = failed r + warnings r + 1)%Z /\
             score (add_result r x) =
               (inject_Z (passed r) / inject_Z (passed r + f + w) * 100)%Q)
    as (f & w & Hf' & Hw' & Hsum & ->).
  { unfold add_result.
    destruct Hx as [-> | ->]; unfold score; simpl.
    - exists (failed r + 1)%Z, (warnings r).
      destruct (Z.eqb_spec (passed r + (failed r + 1) + warnings r) 0); [lia|].
      repeat split; lia.
    - exists (failed r), (warnings r + 1)%Z.
      destruct (Z.eqb_spec (passed r + failed r + (warnings r + 1)) 0); [lia|].
      repeat split; lia. }
  unfold score.
  destruct (Z.eqb_spec (passed r + failed r + warnings r) 0) as [H0|Hne].
  - apply (Qle_trans _ (inject_Z 1 / inject_Z 1 * 100)); [|by compute].
    apply ratio_le; lia.
  - apply ratio_le; nia.
Qed.

(** Recording another passed check never turns a verdict of [evaluate]
    from yes to no, and recording a skipped check never changes the
    verdict. *)
Theorem gate_verdict_after_passed_or_skipped gate r x :
  (0 <= passed r)%Z -> (0 <= failed r)%Z -> (0 <= warnings r)%Z ->
  (status x = PASSED -> evaluate gate r = true ->
   evaluate gate (add_result r x) = true) /\
  (status x = SKIPPED -> evaluate gate (add_result r x) = evaluate gate r).
Proof.
  intros Hp Hf Hw. split.
  - intros Hx. rewrite !evaluate_spec. intros (H1 & H2 & H3 & H4).
    pose proof (score_after_passed r x Hp Hf Hw Hx) as Hscore.
    unfold add_result in *. rewrite Hx in *. simpl.
    split; [done|]. split; [done|]. split; [by apply (Qle_trans _ (score r))|].
    intros req Hreq. rewrite found_passed_app, (H4 req Hreq). done.
  - intros Hx. unfold evaluate, add_result. rewrite Hx. simpl.
    replace (score _) with (score r) by reflexivity.
    assert (forall required,
               all_required_passed required (results r ++ [x]) =
               all_required_passed required (results r)) as ->; [|done].
    induction required as [|req required IH]; simpl; [done|].
    rewrite found_passed_app, IH. simpl. rewrite Hx.
    rewrite andb_false_r. simpl. by rewrite orb_false_r.
Qed.

(** Recording a failed check or a warning never turns a verdict from no
    to yes. *)
Theorem gate_verdict_after_failure gate r x :
  (0 <= passed r)%Z -> (0 <= failed r)%Z -> (0 <= warnings r)%Z ->
  status x = FAILED \/ status x = WARNING ->
  evaluate gate r = false ->
  evaluate gate (add_result r x) = false.
Proof.
  intros Hp Hf Hw Hx Hno.
  destruct (evaluate gate (add_result r x)) eqn:Hafter; [|done].
  rewrite <- Hno. symmetry. apply evaluate_spec.
  apply evaluate_spec in Hafter as (H1 & H2 & H3 & H4).
  pose proof (score_after_failure r x Hp Hf Hw Hx) as Hscore.
  destruct (add_result_spec r x) as (Hres & _ & _ & Hfailed & Hwarn & _).
  rewrite Hres in H4. rewrite Hfailed in H1. rewrite Hwarn in H2.
  assert (0 <= count_status FAILED [x])%Z by (unfold count_status; lia).
  assert (0 <= count_status WARNING [x])%Z by (unfold count_status; lia).
  split; [lia|]. split; [lia|].
  split; [by apply (Qle_trans _ (score (add_result r x)))|].
  intros req Hreq. specialize (H4 req Hreq).
  rewrite found_passed_app in H4. apply orb_true_iff in H4 as [H4|H4]; [done|].
  simpl in H4. destruct Hx as [Hx|Hx]; rewrite Hx in H4;
    by rewrite andb_false_r in H4.
Qed.
End QualityFacts.

(** ** The post-generation checks *)

Section PostCheckFacts.
Import Validation Quality.
Variable str_of_exn : exn -> str.

Local Abbreviation run_post_checks := (run_post_checks str_of_exn).
Local Abbreviation result_of_check := (result_of_check str_of_exn).

Lemma run_post_checks_results post_checks project_dir :
  run_post_checks post_checks project_dir true =
    add_results (fresh project_dir)
      (List.map (result_of_check project_dir) post_checks).
Proof.
  unfold Quality.run_post_checks, add_results. simpl.
  generalize (fresh project_dir).
  induction post_checks as [|c cs IH]; intros report; simpl; [done|].
  rewrite <- IH. f_equal. unfold record_check, Quality.result_of_check.
  by destruct (run_check c project_dir).
Qed.

Lemma count_status_pos s (rs : list ValidationResult) x :
  In x rs -> status x = s -> (1 <= count_status s rs)%Z.
Proof.
  intros Hin Hs. unfold count_status.
  assert (In x (List.filter (fun r => status_eqb (status r) s) rs)) as Hf.
  { apply filter_In. split; [done|]. rewrite Hs. by destruct s. }
  destruct (List.filter _ rs); [done|]. simpl. lia.
Qed.

(** When the project directory exists, [run_post_checks] records one
    result per check, in order, and a check that raises is recorded as a
    failure under its function name: the report then has a failure, is not
    a success, and is rejected by every gate that tolerates no failure. *)
Theorem crashing_check_is_a_failure post_checks project_dir c e :
  In c post_checks ->
  run_check c project_dir = Raise e ->
  let report := run_post_checks post_checks project_dir true in
  results report = List.map (result_of_check project_dir) post_checks /\
  In (check_error str_of_exn c e) (results report) /\
  (1 <= failed report)%Z /\
  success report = false /\
  forall gate, (max_failures gate <= 0)%Z -> evaluate gate report = false.
Proof.
  intros Hin Hraise report. subst report.
  rewrite run_post_checks_results.
  destruct (add_results_spec (fresh project_dir)
              (List.map (result_of_check project_dir) post_checks))
    as (Hres & _ & Hfailed & _).
  simpl in Hres, Hfailed.
  assert (In (check_error str_of_exn c e)
            (List.map (result_of_check project_dir) post_checks)) as Hrec.
  { apply in_map_iff. exists c. split; [|done].
    unfold Quality.result_of_check. by rewrite Hraise. }
  assert (1 <= failed
                 (add_results (fresh project_dir)
                    (List.map (result_of_check project_dir) post_checks)))%Z
    as Hone.
  { rewrite Hfailed.
    pose proof (count_status_pos FAILED _ _ Hrec eq_refl). lia. }
  split; [done|]. split; [by rewrite Hres|]. split; [done|]. split.
  - unfold success. destruct (Z.eqb_spec (failed (add_results (fresh project_dir)
      (List.map (result_of_check project_dir) post_checks))) 0); [lia|done].
  - intros gate Hgate.
    destruct (evaluate gate _) eqn:Heval; [|done].
    apply evaluate_spec in Heval as (Hf & _). lia.
Qed.

(** When the project directory does not exist, no check is run: the
    report holds the single failure "Project directory", its score is 0,
    and no gate that tolerates no failure or asks for a positive score
    lets it through; none of the predefined gates does. *)
Theorem missing_directory_fails_every_gate post_checks project_dir :
  let report := run_post_checks post_checks project_dir false in
  results report = [missing_directory project_dir] /\
  failed report = 1%Z /\
  score report = 0%Q /\
  success report = false /\
  (forall gate,
      (max_failures gate < 1)%Z \/ (0 < min_score gate)%Q ->
      evaluate gate report = false) /\
  (forall quality_gate, evaluate (select_gate quality_gate) report = false).
Proof.
  intros report. subst report. unfold Quality.run_post_checks. simpl.
  set (report := add_result (fresh project_dir) (missing_directory project_dir)).
  assert (forall gate,
             (max_failures gate < 1)%Z \/ (0 < min_score gate)%Q ->
             evaluate gate report = false) as Hgate.
  { intros gate Hcond.
    destruct (evaluate gate report) eqn:Heval; [|done].
    apply evaluate_spec in Heval as (Hf & _ & Hs & _).
    change (failed report) with 1%Z in Hf. change (score report) with 0%Q in Hs.
    destruct Hcond as [Hcond|Hcond]; [lia|].
    exfalso. apply (Qlt_irrefl 0). by apply (Qlt_le_trans _ (min_score gate)). }
  repeat split; try done.
  intros quality_gate. apply Hgate.
  destruct (select_gate_cases quality_gate) as [->|[->| ->]]; right; by compute.
Qed.
End PostCheckFacts.

(** A report of the four checks the strict gate asks for, all passed. *)
Lemma predefined_gates_are_nested_witness :
  let x n := Validation.Build_ValidationResult (lit n) Validation.PASSED
               Validation.STRUCTURE (lit "found") None (lit "error") in
  let r := Validation.add_results (Validation.fresh (lit "proj"))
             [x "README.md exists"; x "Code directory";
              x "Docker configuration"; x "Test files"]%string in
  Quality.evaluate Quality.strict r = true /\
  Quality.evaluate Quality.standard r = true /\
  Quality.evaluate (Quality.select_gate (lit "no such gate")) r = true.
Proof.
  intros x r.
  assert (Quality.evaluate Quality.strict r = true) as Hstrict
    by (by vm_compute).
  split; [exact Hstrict|].
  destruct (predefined_gates_are_nested r) as (H1 & _ & H3).
  split; [exact (H1 Hstrict)|].
  exact (proj1 (H3 (lit "no such gate")) Hstrict).
Defined.

Lemma gate_verdict_after_passed_or_skipped_witness :
  let x n s := Validation.Build_ValidationResult (lit n) s
                 Validation.STRUCTURE (lit "found") None (lit "error") in
  let r := Validation.add_results (Validation.fresh (lit "proj"))
             [x "README.md exists" Validation.PASSED;
              x "Code directory" Validation.PASSED]%string in
  (0 <= Validation.passed r)%Z /\ (0 <= Validation.failed r)%Z /\
  (0 <= Validation.warnings r)%Z /\
  Quality.evaluate Quality.standard r = true /\
  Quality.evaluate Quality.standard
    (Validation.add_result r (x "Test files"%string Validation.PASSED)) = true.
Proof.
  intros x r.
  assert (0 <= Validation.passed r)%Z as Hp by (vm_compute; discriminate).
  assert (0 <= Validation.failed r)%Z as Hf by (vm_compute; discriminate).
  assert (0 <= Validation.warnings r)%Z as Hw by (vm_compute; discriminate).
  assert (Quality.evaluate Quality.standard r = true) as Hyes
    by (by vm_compute).
  split; [exact Hp|]. split; [exact Hf|]. split; [exact Hw|].
  split; [exact Hyes|].
  exact (proj1 (gate_verdict_after_passed_or_skipped Quality.standard r
                  (x "Test files"%string Validation.PASSED) Hp Hf Hw)
           eq_refl Hyes).
Defined.

Lemma gate_verdict_after_failure_witness :
  let x n s := Validation.Build_ValidationResult (lit n) s
                 Validation.STRUCTURE (lit "found") None (lit "error") in
  let r := Validation.add_results (Validation.fresh (lit "proj"))
             [x "README.md exists" Validation.PASSED]%string in
  (0 <= Validation.passed r)%Z /\ (0 <= Validation.failed r)%Z /\
  (0 <= Validation.warnings r)%Z /\
  Quality.evaluate Quality.standard r = false /\
  Quality.evaluate Quality.standard
    (Validation.add_result r (x "Code directory"%string Validation.WARNING))
  = false.
Proof.
  intros x r.
  assert (0 <= Validation.passed r)%Z as Hp by (vm_compute; discriminate).
  assert (0 <= Validation.failed r)%Z as Hf by (vm_compute; discriminate).
  assert (0 <= Validation.warnings r)%Z as Hw by (vm_compute; discriminate).
  assert (Quality.evaluate Quality.standard r = false) as Hno
    by (by vm_compute).
  split; [exact Hp|]. split; [exact Hf|]. split; [exact Hw|].
  split; [exact Hno|].
  exact (gate_verdict_after_failure Quality.standard r
           (x "Code directory"%string Validation.WARNING) Hp Hf Hw
           (or_intror eq_refl) Hno).
Defined.

(** A pipeline of two checks, the second of which raises. *)
Lemma crashing_check_is_a_failure_witness :
  let ok := Validation.Build_ValidationResult (lit "README.md exists")
              Validation.PASSED Validation.DOCUMENTATION (lit "found") None
              (lit "error") in
  let good := Quality.Build_check (lit "check_readme_exists")
                (fun _ => Ok ok) in
  let bad := Quality.Build_check (lit "check_custom")
               (fun _ => Raise ValueError) in
  In bad [good; bad] /\
  Quality.run_check bad (lit "proj") = Raise ValueError /\
  Validation.success
    (Quality.run_post_checks (fun _ => lit "boom") [good; bad] (lit "proj") true)
  = false.
Proof.
  intros ok good bad.
  assert (In bad [good; bad]) as Hin by (right; left; reflexivity).
  split; [exact Hin|]. split; [reflexivity|].
  apply (crashing_check_is_a_failure (fun _ => lit "boom") [good; bad]
           (lit "proj") bad ValueError Hin eq_refl).
Defined.

Lemma missing_directory_fails_every_gate_witness :
  (0 < Quality.min_score Quality.basic)%Q /\
  Quality.evaluate Quality.basic
    (Quality.run_post_checks (fun _ => lit "boom") [] (lit "proj") false)
  = false.
Proof.
  assert (0 < Quality.min_score Quality.basic)%Q as Hmin by (by compute).
  split; [exact Hmin|].
  apply (missing_directory_fails_every_gate (fun _ => lit "boom") []
           (lit "proj")).
  right. exact Hmin.
Defined.

(** ** Suggested profiles exist *)

Section SuggestedProfileExists.
Import ProfileManager.
Variable lower : str -> str.

(** Whatever the description, [suggest_profile] returns the name of a
    profile that [PROFILES] defines, so the [get_profile] that follows it
    in [create_project] never comes back empty. *)
Theorem suggested_profile_is_defined description :
  exists profile,
    suggest_profile lower description = Ok profile /\
    In profile Profiles.list_profiles.
Proof.
  assert (forall key, In key (dict_keys keyword_map) ->
                      In key Profiles.list_profiles) as Hkeys.
  { assert (Forall (fun key => key ∈ Profiles.list_profiles)
              (dict_keys keyword_map)) as Hall
      by (apply (bool_decide_unpack _); by vm_compute).
    intros key Hkey. rewrite <- list_elem_of_In in *.
    by apply (proj1 (Forall_forall _ _) Hall). }
  destruct (scores_for_spec lower description) as [Hk _].
  unfold suggest_profile. rewrite Hk.
  destruct (dict_keys keyword_map) as [|k0 ks] eqn:Hmap; [done|]. simpl.
  pose proof (py_max_from_In
                (score_of (scores_for lower description)) k0 ks) as Hbest.
  destruct (score_of (scores_for lower description)
              (py_max_from (score_of (scores_for lower description)) k0 ks)
            >? 0)%Z.
  - eexists. split; [done|]. by apply Hkeys.
  - eexists. split; [done|]. apply Hkeys. rewrite <- Hmap.
    vm_compute. tauto.
Qed.
End SuggestedProfileExists.

(** ** The default pipeline and the predefined gates *)

Section DefaultPipeline.
Import Validation Quality Checks.
Variable str_of_exn : exn -> str.
Variable lower : str -> str.
Variable observe : str -> project_files.

Local Abbreviation default_report project_dir :=
  (run_post_checks str_of_exn (default_post_checks lower observe)
     project_dir true).

Lemma name_status_count s (rs rs' : list ValidationResult) :
  List.map name_status rs = List.map name_status rs' ->
  count_status s rs = count_status s rs'.
Proof.
  unfold count_status. revert rs'.
  induction rs as [|x rs IH]; intros [|x' rs']; simpl; try done.
  intros H. injection H as _ Hstatus Hrs. specialize (IH rs' Hrs).
  rewrite Hstatus.
  destruct (status_eqb (status x') s); simpl; lia.
Qed.

Lemma name_status_found req (rs rs' : list ValidationResult) :
  List.map name_status rs = List.map name_status rs' ->
  found_passed req rs = found_passed req rs'.
Proof.
  revert rs'. induction rs as [|x rs IH]; intros [|x' rs']; simpl; try done.
  intros H. injection H as -> -> Hrs.
  by rewrite (IH rs' Hrs).
Qed.

(** A gate and the counters see of the results only names and statuses. *)
Lemma report_depends_on_names_and_statuses gate dir dir'
    (rs rs' : list ValidationResult) :
  List.map name_status rs = List.map name_status rs' ->
  evaluate gate (add_results (fresh dir) rs)
    = evaluate gate (add_results (fresh dir') rs') /\
  failed (add_results (fresh dir) rs) = failed (add_results (fresh dir') rs') /\
  warnings (add_results (fresh dir) rs)
    = warnings (add_results (fresh dir') rs') /\
  skipped (add_results (fresh dir) rs)
    = skipped (add_results (fresh dir') rs') /\
  passed (add_results (fresh dir) rs) = passed (add_results (fresh dir') rs').
Proof.
  intros Hmap.
  destruct (add_results_spec (fresh dir) rs) as (Hr & Hp & Hf & Hw & Hs).
  destruct (add_results_spec (fresh dir') rs') as (Hr' & Hp' & Hf' & Hw' & Hs').
  simpl in *.
  assert (passed (add_results (fresh dir) rs)
          = passed (add_results (fresh dir') rs')) as Epassed
    by (rewrite Hp, Hp'; f_equal; by apply name_status_count).
  assert (failed (add_results (fresh dir) rs)
          = failed (add_results (fresh dir') rs')) as Efailed
    by (rewrite Hf, Hf'; f_equal; by apply name_status_count).
  assert (warnings (add_results (fresh dir) rs)
          = warnings (add_results (fresh dir') rs')) as Ewarn
    by (rewrite Hw, Hw'; f_equal; by apply name_status_count).
  assert (skipped (add_results (fresh dir) rs)
          = skipped (add_results (fresh dir') rs')) as Eskip.
  { rewrite Hs, Hs', !count_other_skipped. f_equal.
    by apply name_status_count. }
  repeat split; try done.
  unfold evaluate, score. rewrite Epassed, Efailed, Ewarn, Hr, Hr'.
  assert (forall required,
             all_required_passed required rs
             = all_required_passed required rs') as ->; [|done].
  induction required as [|req required IH]; simpl; [done|].
  by rewrite (name_status_found req rs rs' Hmap), IH.
Qed.

(** The names of the nine default results and the statuses each check can
    give. *)
Lemma default_results_shape files :
  exists s1 s2 s3 s4 s5 s6 s7 s8 s9,
    List.map name_status (default_results lower files) =
      [ (lit "README.md exists", s1); (lit "Code directory", s2);
        (lit "Docker configuration", s3); (lit "Dependency files", s4);
        (lit "Test files", s5); (lit ".gitignore", s6);
        (lit "Architecture documentation", s7);
        (lit "Environment template", s8);
        (lit "Sensitive data check", s9) ] /\
    s1 = status (check_readme_exists files) /\
    s2 = status (check_code_directory files) /\
    (s1 = PASSED \/ s1 = WARNING \/ s1 = FAILED) /\
    (s2 = PASSED \/ s2 = WARNING \/ s2 = FAILED) /\
    (s3 = PASSED \/ s3 = WARNING) /\ (s4 = PASSED \/ s4 = WARNING) /\
    (s5 = PASSED \/ s5 = WARNING) /\ (s6 = PASSED \/ s6 = WARNING) /\
    (s7 = PASSED \/ s7 = WARNING) /\
    (s8 = PASSED \/ s8 = WARNING \/ s8 = SKIPPED) /\
    (s9 = PASSED \/ s9 = WARNING).
Proof.
  exists (status (check_readme_exists files)),
    (status (check_code_directory files)),
    (status (check_dockerfile files)), (status (check_requirements files)),
    (status (check_tests_exist files)), (status (check_gitignore files)),
    (status (check_architecture_doc files)),
    (status (check_env_example files)),
    (status (check_sensitive_data lower files)).
  split; [|split; [done|split; [done|]]].
  - unfold default_results, name_status. simpl. repeat f_equal.
    + unfold check_readme_exists.
      destruct (path_exists files (lit "README.md")); [|done].
      by destruct (500 <? _)%N.
    + unfold check_code_directory.
      destruct (path_exists files (lit "10_Code") && _); [|done].
      by destruct (0 <? _)%nat.
    + unfold check_dockerfile. destruct (_ || _); [done|].
      by destruct (rglob files (lit "Dockerfile*")).
    + unfold check_requirements. by destruct (find_requirements _ _ _).
    + unfold check_tests_exist. by destruct (concat _).
    + unfold check_gitignore. by destruct (path_exists _ _).
    + unfold check_architecture_doc.
      destruct (path_exists _ _); [|done]. by destruct (1000 <? _)%N.
    + unfold check_env_example. destruct (_ || _); [done|].
      by destruct (path_exists _ _).
    + unfold check_sensitive_data. by destruct (omap _ _).
  - repeat split.
    + unfold check_readme_exists.
      destruct (path_exists files (lit "README.md")); [|auto].
      destruct (500 <? _)%N; auto.
    + unfold check_code_directory.
      destruct (path_exists files (lit "10_Code") && _); [|auto].
      destruct (0 <? _)%nat; auto.
    + unfold check_dockerfile. destruct (_ || _); [auto|].
      destruct (rglob files (lit "Dockerfile*")); auto.
    + unfold check_requirements. destruct (find_requirements _ _ _); auto.
    + unfold check_tests_exist. destruct (concat _); auto.
    + unfold check_gitignore. destruct (path_exists _ _); auto.
    + unfold check_architecture_doc.
      destruct (path_exists _ _); [|auto]. destruct (1000 <? _)%N; auto.
    + unfold check_env_example. destruct (_ || _); [auto|].
      destruct (path_exists _ _); auto.
    + unfold check_sensitive_data. destruct (omap _ _); auto.
Qed.

Lemma default_report_results project_dir :
  default_report project_dir =
    add_results (fresh project_dir)
      (default_results lower (observe project_dir)).
Proof. by rewrite run_post_checks_results. Qed.

(** Replace the report of the default pipeline by the report of nine
    plain results with the same names and statuses, and go through the
    statuses the checks can give. *)
Ltac by_statuses project_dir :=
  let files := constr:(observe project_dir) in
  destruct (default_results_shape files)
    as (s1 & s2 & s3 & s4 & s5 & s6 & s7 & s8 & s9 & Hmap & E1 & E2 &
        H1 & H2 & H3 & H4 & H5 & H6 & H7 & H8 & H9);
  rewrite default_report_results;
  rewrite <- ?E1, <- ?E2;
  match type of Hmap with
  | _ = ?pairs =>
      assert (List.map name_status (default_results lower files) =
              List.map name_status (List.map plain_result pairs)) as Hplain
        by (rewrite Hmap; reflexivity);
      clear Hmap
  end.

(** On the default pipeline only the README and the code-directory checks
    can fail and only the environment check can be skipped: the report has
    nine results, at most two failures and at most one skip, and it is a
    success exactly when [README.md] exists and [10_Code] is an existing
    directory. *)
Theorem default_pipeline_counts project_dir :
  let report := default_report project_dir in
  let files := observe project_dir in
  length (results report) = 9%nat /\
  (failed report <= 2)%Z /\ (skipped report <= 1)%Z /\
  (passed report + failed report + warnings report + skipped report = 9)%Z /\
  success report =
    path_exists files (lit "README.md") &&
    (path_exists files (lit "10_Code") && is_dir files (lit "10_Code")).
Proof.
  intros report files. subst report files.
  assert (status_eqb (status (check_readme_exists (observe project_dir))) FAILED
          = negb (path_exists (observe project_dir) (lit "README.md"))) as F1.
  { unfold check_readme_exists. destruct (path_exists _ _); [|done].
    by destruct (500 <? _)%N. }
  assert (status_eqb (status (check_code_directory (observe project_dir))) FAILED
          = negb (path_exists (observe project_dir) (lit "10_Code") &&
                  is_dir (observe project_dir) (lit "10_Code"))) as F2.
  { unfold check_code_directory. destruct (_ && _); [|done].
    by destruct (0 <? _)%nat. }
  rewrite <- (negb_involutive (path_exists _ (lit "README.md"))), <- F1.
  rewrite <- (negb_involutive (_ && is_dir _ _)), <- F2.
  by_statuses project_dir.
  destruct (report_depends_on_names_and_statuses basic project_dir project_dir
              _ _ Hplain) as (_ & -> & -> & -> & ->).
  destruct (add_results_spec (fresh project_dir)
              (default_results lower (observe project_dir))) as (-> & _).
  unfold success.
  destruct (report_depends_on_names_and_statuses basic project_dir project_dir
              _ _ Hplain) as (_ & -> & _).
  clear Hplain E1 E2 F1 F2.
  destruct H1 as [->|[->| ->]]; destruct H2 as [->|[->| ->]];
    destruct H3 as [->| ->]; destruct H4 as [->| ->];
    destruct H5 as [->| ->]; destruct H6 as [->| ->];
    destruct H7 as [->| ->]; destruct H8 as [->|[->| ->]];
    destruct H9 as [->| ->]; by vm_compute.
Qed.

(** On the default pipeline the verdicts of the predefined gates come
    down to this: [standard] passes exactly when the README and the
    code-directory checks pass and there are at most two warnings (its own
    bound of five warnings is never the one that decides), and [strict]
    passes exactly when there is no warning and no failure. *)
Theorem default_pipeline_verdicts project_dir :
  let report := default_report project_dir in
  let files := observe project_dir in
  evaluate standard report =
    is_passed (check_readme_exists files) &&
    is_passed (check_code_directory files) &&
    (warnings report <=? 2)%Z /\
  evaluate strict report =
    (warnings report =? 0)%Z && (failed report =? 0)%Z.
Proof.
  intros report files. subst report files. unfold is_passed.
  by_statuses project_dir.
  destruct (report_depends_on_names_and_statuses standard project_dir
              project_dir _ _ Hplain) as (-> & -> & -> & _).
  destruct (report_depends_on_names_and_statuses strict project_dir
              project_dir _ _ Hplain) as (-> & _).
  clear Hplain E1 E2.
  destruct H1 as [->|[->| ->]]; destruct H2 as [->|[->| ->]];
    destruct H3 as [->| ->]; destruct H4 as [->| ->];
    destruct H5 as [->| ->]; destruct H6 as [->| ->];
    destruct H7 as [->| ->]; destruct H8 as [->|[->| ->]];
    destruct H9 as [->| ->]; by vm_compute.
Qed.
End DefaultPipeline.

(** ** Merging the same override twice *)

Section MergeTwice.
Import ConfigManager.
Implicit Types (base override : list (str * json)).

Lemma dict_set_same {V : Type} k (v : V) (d : list (str * V)) :
  dict_get k d = Some v -> dict_set k v d = d.
Proof.
  induction d as [|[k0 v0] d IH]; simpl; [done|].
  destruct (decide (k0 = k)) as [->|Hne].
  - by intros [= ->].
  - intros H. by rewrite IH.
Qed.

Lemma json_wf_entry d key value :
  json_wf (JDict d) -> In (key, value) d ->
  json_wf value /\ (json_size value < json_size (JDict d))%nat.
Proof.
  simpl. intros [_ Hall] Hin.
  induction d as [|[k v] d IH]; [done|]. simpl in *.
  destruct Hall as [Hv Hall]. destruct Hin as [[= -> ->]|Hin].
  - split; [done|lia].
  - destruct (IH Hall Hin). split; [done|lia].
Qed.

(** Merging entries that each leave the base as it is leaves it as it is. *)
Lemma deep_merge_fixed base override :
  (forall key value, In (key, value) override ->
                     merge_entry base key value = base) ->
  _deep_merge base override = base.
Proof.
  induction override as [|[k v] override IH]; intros Hfix; [done|].
  rewrite deep_merge_cons, (Hfix k v) by (by left).
  apply IH. intros key value Hin. apply Hfix. by right.
Qed.

Lemma deep_merge_self_sized n override :
  (json_size (JDict override) <= n)%nat ->
  json_wf (JDict override) ->
  _deep_merge override override = override.
Proof.
  revert override. induction n as [|n IH]; intros override Hsize Hwf.
  { simpl in Hsize. lia. }
  apply deep_merge_fixed. intros key value Hin.
  destruct (json_wf_entry override key value Hwf Hin) as [Hwfv Hlt].
  destruct Hwf as [Hkeys _].
  rewrite merge_entry_is_set. apply dict_set_same.
  rewrite (dict_get_of_In key value override Hkeys Hin).
  unfold merged_value.
  rewrite (dict_get_of_In key value override Hkeys Hin).
  destruct value as [| | | | | |sub]; try done.
  by rewrite IH by (done || lia).
Qed.

Lemma deep_merge_twice_sized n base override :
  (json_size (JDict override) <= n)%nat ->
  json_wf (JDict override) ->
  _deep_merge (_deep_merge base override) override = _deep_merge base override.
Proof.
  revert base override. induction n as [|n IH]; intros base override Hsize Hwf.
  { simpl in Hsize. lia. }
  apply deep_merge_fixed. intros key value Hin.
  destruct (json_wf_entry override key value Hwf Hin) as [Hwfv Hlt].
  pose proof Hwf as [Hkeys _].
  rewrite merge_entry_is_set. apply dict_set_same.
  rewrite (deep_merge_get_entry base override key value Hkeys Hin).
  f_equal. unfold merged_value at 2.
  rewrite (deep_merge_get_entry base override key value Hkeys Hin).
  unfold merged_value.
  destruct value as [| | | | | |ov];
    try (by destruct (dict_get key base) as [[]|]).
  destruct (dict_get key base) as [[| | | | | |sub]|];
    try (by rewrite (deep_merge_self_sized n ov) by (done || lia)).
  by rewrite IH by (done || lia).
Qed.

(** Merging the same override a second time changes nothing, and merging
    a tree into itself leaves it as it is. *)
Theorem deep_merge_is_idempotent base override :
  json_wf (JDict override) ->
  _deep_merge (_deep_merge base override) override = _deep_merge base override
  /\ _deep_merge override override = override.
Proof.
  intros Hwf. split.
  - by apply (deep_merge_twice_sized (json_size (JDict override))).
  - by apply (deep_merge_self_sized (json_size (JDict override))).
Qed.
End MergeTwice.

Lemma deep_merge_is_idempotent_witness :
  let override := [(lit "api", JDict [(lit "timeout", JInt 5)]);
                   (lit "extra", JDict [(lit "flag", JBool true)])] in
  json_wf (JDict override) /\
  ConfigManager._deep_merge
    (ConfigManager._deep_merge ConfigInit.DEFAULT_CONFIG override) override
  = ConfigManager._deep_merge ConfigInit.DEFAULT_CONFIG override.
Proof.
  intros override.
  assert (json_wf (JDict override)) as Hwf.
  { simpl. split; [apply (bool_decide_unpack _); by vm_compute|].
    repeat split; apply (bool_decide_unpack _); by vm_compute. }
  split; [exact Hwf|].
  apply (deep_merge_is_idempotent ConfigInit.DEFAULT_CONFIG override Hwf).
Defined.

(** ** The project skeleton *)

Section CreateStructureFacts.
Import Structure.
Variable os_path_join : list str -> str.
Variable os_path_dirname : str -> str.
Variable parents : str -> list str.
Variable makedirs_error : disk -> str -> option exn.
Variable open_error : disk -> str -> str -> option exn.
Variable project_dir : str.

Local Abbreviation full := (full_path_of os_path_join project_dir).
Local Abbreviation loop :=
  (create_paths os_path_join os_path_dirname parents makedirs_error
     open_error project_dir).
Local Abbreviation run :=
  (_create_structure os_path_join os_path_dirname parents makedirs_error
     open_error project_dir).

Lemma makedirs_Ok name d d1 :
  makedirs parents makedirs_error name d = Ok d1 ->
  present d ⊆ present d1 /\ written d1 = written d.
Proof.
  unfold makedirs. destruct (makedirs_error d name); [done|].
  intros [= <-]. simpl. split; [|done].
  intros x Hx. by do 2 apply elem_of_union_l.
Qed.

Lemma write_file_Ok full_path text d d2 :
  write_file open_error full_path text d = Ok d2 ->
  present d2 = present d ∪ {[ full_path ]} /\
  written d2 = written d ++ [(full_path, text)].
Proof.
  unfold write_file. destruct (open_error d full_path text); [done|].
  by intros [= <-].
Qed.

Lemma create_paths_Ok paths created0 d result d' :
  loop paths created0 d = (Ok result, d') ->
  exists new,
    result = created0 ++ new /\
    sublist new paths /\
    written d' = written d ++ List.map (fun p => (full p, text_of p)) new /\
    (forall p, p ∈ new -> full p ∉ present d) /\
    (forall p, p ∈ paths -> full p ∈ present d') /\
    present d ⊆ present d'.
Proof.
  revert created0 d.
  induction paths as [|path paths IH]; intros created0 d; simpl.
  { intros [= <- <-]. exists []. rewrite !app_nil_r.
    repeat split; try done; set_solver. }
  destruct (makedirs _ _ _ d) as [d1|e] eqn:Hmk; [|done].
  apply makedirs_Ok in Hmk as [Hsub1 Hw1].
  unfold os_path_exists. case_bool_decide as Hex.
  - intros Hrun. apply IH in Hrun as (new & -> & Hsl & Hw & Hnew & Hall & Hsub).
    exists new. split; [done|]. split; [by apply sublist_cons|].
    split; [by rewrite Hw, Hw1|]. split; [set_solver|].
    split; [|set_solver].
    intros p [->|Hp]%elem_of_cons; [set_solver|by apply Hall].
  - destruct (write_file _ _ _ d1) as [d2|e] eqn:Hwr; [|done].
    apply write_file_Ok in Hwr as [Hp2 Hw2].
    intros Hrun. apply IH in Hrun as (new & -> & Hsl & Hw & Hnew & Hall & Hsub).
    exists (path :: new). split; [by rewrite <- app_assoc|].
    split; [by apply sublist_skip|].
    split; [by rewrite Hw, Hw2, Hw1, <- app_assoc|].
    split.
    { intros p [->|Hp]%elem_of_cons; [set_solver|].
      specialize (Hnew p Hp). set_solver. }
    split; [|set_solver].
    intros p [->|Hp]%elem_of_cons; [set_solver|by apply Hall].
Qed.

Lemma create_paths_present paths created0 d :
  (forall p, p ∈ paths -> full p ∈ present d) ->
  written (loop paths created0 d).2 = written d /\
  forall result, (loop paths created0 d).1 = Ok result -> result = created0.
Proof.
  revert d. induction paths as [|path paths IH]; intros d Hall; simpl.
  { split; [done|]. by intros result [= <-]. }
  destruct (makedirs _ _ _ d) as [d1|e] eqn:Hmk; [|done].
  apply makedirs_Ok in Hmk as [Hsub1 Hw1].
  unfold os_path_exists. rewrite bool_decide_eq_true_2 by set_solver.
  rewrite <- Hw1. apply IH. set_solver.
Qed.

(** When [_create_structure] returns, it has written exactly the files
    it reports, in the order of the [structure] list, each at a path where
    nothing existed when it was called and each with the text made from
    its name; nothing that existed is gone, and every path of the
    structure now exists. *)
Theorem create_structure_only_adds d created d' :
  run d = (Ok created, d') ->
  sublist created structure /\
  written d' = written d ++ List.map (fun p => (full p, text_of p)) created /\
  (forall p, p ∈ created -> full p ∉ present d) /\
  (forall p, p ∈ structure -> full p ∈ present d') /\
  present d ⊆ present d'.
Proof.
  intros Hrun. apply create_paths_Ok in Hrun as (new & -> & H). exact H.
Qed.

(** Once [_create_structure] has returned, calling it again, on that
    file system or on one that has gained more paths since, writes
    nothing, and reports no file if it returns. *)
Theorem create_structure_again d created d' later :
  run d = (Ok created, d') ->
  present d' ⊆ present later ->
  written (run later).2 = written later /\
  forall again, (run later).1 = Ok again -> again = [].
Proof.
  intros Hrun Hlater.
  apply create_paths_Ok in Hrun as (_ & _ & _ & _ & _ & Hall & _).
  apply create_paths_present. intros p Hp. apply Hlater. by apply Hall.
Qed.
End CreateStructureFacts.

Example text_of_sample :
  Structure.text_of (lit "02_Project_Report.md")
    = lit "# 02 Project Report" ++ [10%N; 10%N]
  /\ Structure.text_of (lit "10_Code/Scripts/.gitkeep") = [].
Proof. split; reflexivity. Qed.

Lemma create_structure_only_adds_witness :
  let run := Structure._create_structure posix_join posix_dirname
               Structure.no_parents Structure.no_makedirs_error
               Structure.no_open_error (lit "out") in
  let d := Structure.Disk {[ lit "out/04_SRS.md" ]} [] in
  let created := List.filter (fun p => negb (bool_decide (p = lit "04_SRS.md")))
                   Structure.structure in
  run d = (Ok created, (run d).2) /\
  Structure.written (run d).2
    = List.map (fun p => (posix_join [lit "out"; p], Structure.text_of p))
        created.
Proof.
  intros run d created.
  assert ((run d).1 = Ok created) as Hcreated by (vm_compute; reflexivity).
  assert (run d = (Ok created, (run d).2)) as Hrun.
  { rewrite <- Hcreated. apply surjective_pairing. }
  split; [exact Hrun|].
  exact (proj1 (proj2 (create_structure_only_adds posix_join
    posix_dirname Structure.no_parents Structure.no_makedirs_error
    Structure.no_open_error (lit "out") d created (run d).2 Hrun))).
Defined.

Lemma create_structure_again_witness :
  let run := Structure._create_structure posix_join posix_dirname
               Structure.no_parents Structure.no_makedirs_error
               Structure.no_open_error (lit "out") in
  let d := Structure.Disk ∅ [] in
  run d = (Ok Structure.structure, (run d).2) /\
  Structure.written (run (run d).2).2 = Structure.written (run d).2.
Proof.
  intros run d.
  assert ((run d).1 = Ok Structure.structure) as Hcreated
    by (vm_compute; reflexivity).
  assert (run d = (Ok Structure.structure, (run d).2)) as Hrun.
  { rewrite <- Hcreated. apply surjective_pairing. }
  split; [exact Hrun|].
  refine (proj1 (create_structure_again posix_join
    posix_dirname Structure.no_parents Structure.no_makedirs_error
    Structure.no_open_error (lit "out") d Structure.structure (run d).2
    (run d).2 Hrun _)).
  reflexivity.
Defined.
